(** * Evacuation simulator (Varas floor-field model): main.c and its core

    The development has two layers.

    - [main.c] is embedded as it is written: [main] from its do-while loop
      over simulation sets on, [run_simulations] with its timestep loop,
      [conflict_solving] and [deallocate_program_structures].  The functions
      it calls live in other translation units; they are the members of three
      interfaces ([Timestep_Api], [Run_Api], [Set_Api]) and every call is
      recorded in a trace of [Event]s.  Loops that may run forever are cut by
      fuel.
      The lines of [main] before the loop are embedded apart
      ([initialisation], over [Init_Api], with a trace of [Init_Event]s) and
      joined with the loop in [program].
    - The floor-field combination and the pedestrian automaton, whose code is
      not among the sources, are modelled from the specification (module
      [Core]) and plugged into the driver through [Timestep_Api].

    Small instances make the models run: a scripted hall for the driver
    ([Hall]), a three by three room for the automaton ([Room]) and a scripted
    desk for the initialisation ([Desk]). *)

From Stdlib Require Import ZArith QArith List Bool Lia.
From Stdlib Require String.
From stdpp Require Import base list.
Import ListNotations.

Local Open Scope Z_scope.

(** ** Data shared by the translation units *)

(** [Function_Status]: FAILURE (0), SUCCESS (1) and the distinguished
    INACCESSIBLE_EXIT that [calculate_final_floor_field] may return. *)
Inductive Function_Status : Type :=
| FAILURE
| SUCCESS
| INACCESSIBLE_EXIT.

Definition Function_Status_eqb (a b : Function_Status) : bool :=
  match a, b with
  | FAILURE, FAILURE | SUCCESS, SUCCESS
  | INACCESSIBLE_EXIT, INACCESSIBLE_EXIT => true
  | _, _ => false
  end.

(** The output formats main.c tests for. *)
Inductive Output_Format : Type :=
| OUTPUT_VISUALIZATION
| OUTPUT_TIMESTEPS_COUNT
| OUTPUT_HEATMAP.

Definition Output_Format_eqb (a b : Output_Format) : bool :=
  match a, b with
  | OUTPUT_VISUALIZATION, OUTPUT_VISUALIZATION
  | OUTPUT_TIMESTEPS_COUNT, OUTPUT_TIMESTEPS_COUNT
  | OUTPUT_HEATMAP, OUTPUT_HEATMAP => true
  | _, _ => false
  end.

(** A grid cell: integer (row, column). *)
Record Location : Type := mkLocation { lin : Z; col : Z }.

(** A floor-field value: a finite number or the "unreachable" sentinel. *)
Inductive Weight : Type :=
| Finite (q : Q)
| Infinite.

Definition Double_Grid : Type := list (list Weight).
Definition Int_Grid : Type := list (list Z).

(** exit.h, [struct exit]. *)
Record Exit : Type := mkExit {
  width : Z;
  coordinates : list Location;
  floor_field : Double_Grid
}.

(** exit.h, [Exits_Set]. *)
Record Exits_Set : Type := mkExits_Set {
  final_floor_field : Double_Grid;
  exits_list : list Exit;
  num_exits : Z
}.

(** The fields of the global [cli_args] that main.c reads; its declaration
    (cli_processing.h) is not among the sources.  [environment_origin] is
    only ever inspected through the [origin_uses_*] predicates.  The numbers
    are integers as such: an execution in which [seed++] or a counter would
    leave the range of its C type is outside the model. *)
Record Command_Line_Args : Type := mkArgs {
  environment_origin : Z;
  output_format : Output_Format;
  write_to_file : bool;
  show_debug_information : bool;
  show_simulation_set_info : bool;
  allow_X_movement : bool;
  single_exit_flag : bool;
  global_line_number : Z;
  global_column_number : Z;
  num_simulations : Z;
  total_num_pedestrians : Z;
  seed : Z
}.

Definition set_seed (a : Command_Line_Args) (s : Z) : Command_Line_Args :=
  {| environment_origin := environment_origin a;
     output_format := output_format a;
     write_to_file := write_to_file a;
     show_debug_information := show_debug_information a;
     show_simulation_set_info := show_simulation_set_info a;
     allow_X_movement := allow_X_movement a;
     single_exit_flag := single_exit_flag a;
     global_line_number := global_line_number a;
     global_column_number := global_column_number a;
     num_simulations := num_simulations a;
     total_num_pedestrians := total_num_pedestrians a;
     seed := s |}.

(** The state of the C library's generator: the seed of the last [srand] and
    the number of [rand] calls made since.  The sequence [rand] returns is a
    function of these two. *)
Record Rand_State : Type := mkRand { seeded_with : Z; draws : nat }.

(** The globals main.c names, and [rest] for those it never touches itself
    (pedestrian set, environment and position grids, open files). *)
Record World (H : Type) : Type := mkWorld {
  rand_state : Rand_State;
  exits_set : Exits_Set;
  heatmap_grid : Int_Grid;
  rest : H
}.
Arguments mkWorld {H} _ _ _ _.
Arguments rand_state {H} _.
Arguments exits_set {H} _.
Arguments heatmap_grid {H} _.
Arguments rest {H} _.

Definition set_rand_state {H} (w : World H) (r : Rand_State) : World H :=
  mkWorld r (exits_set w) (heatmap_grid w) (rest w).

Definition set_heatmap_grid {H} (w : World H) (g : Int_Grid) : World H :=
  mkWorld (rand_state w) (exits_set w) g (rest w).

(** stdlib.h: [srand] replaces the generator state, whatever it was. *)
Definition srand {H} (s : Z) (w : World H) : World H :=
  set_rand_state w (mkRand s 0%nat).

(** Program state: the world and [cli_args]. *)
Record State (H : Type) : Type := mkState {
  world : World H;
  cli_args : Command_Line_Args
}.
Arguments mkState {H} _ _.
Arguments world {H} _.
Arguments cli_args {H} _.

(** ** Calls made by main.c, in the order they happen

    An event shows the arguments main.c passes and, for a call whose status
    it tests, the status returned; [Apply_pedestrian_movement] also records
    the world the apply phase leaves. *)

Inductive Grid_Name : Type :=
| Environment_only_grid
| Pedestrian_position_grid
| Heatmap_grid.

Inductive Event (H : Type) : Type :=
| Get_next_simulation_set (r : Function_Status) (current_exit_number : Z)
| Print_simulation_set_information
| Calculate_final_floor_field (returned_value : Function_Status)
| Print_inaccessible_message
| Print_placeholder (v : Z)
| Deallocate_exits
| Print_execution_status (simulation_set_index simulation_set_quantity : Z)
| Print_newline
| Print_heatmap
| Reset_integer_grid (g : Grid_Name)
| Print_single_exit_marker
| Srand (s : Z)
| Print_double_grid
| Insert_pedestrians_at_random (n : Z) (r : Function_Status)
| Print_pedestrian_position_grid (simu_index timestep : Z)
| Print_timestep_header (n : Z)
| Evaluate_pedestrians_movements
| Determine_pedestrians_in_panic
| Block_X_movement
| Identify_pedestrian_conflicts (r : Function_Status)
| Solve_pedestrian_conflicts (r : Function_Status)
| Print_pedestrian_conflict_information
| Free_pedestrian_conflicts
| Apply_pedestrian_movement (after : World H)
| Update_pedestrian_position_grid
| Reset_pedestrian_state
| Reset_pedestrian_panic
| Sleep (seconds : Z)
| Reset_pedestrians_structures
| Deallocate_pedestrians
| Print_number_timesteps (n : Z)
| Fclose_files
| Deallocate_grid (g : Grid_Name).
Arguments Get_next_simulation_set {H} _ _.
Arguments Print_simulation_set_information {H}.
Arguments Calculate_final_floor_field {H} _.
Arguments Print_inaccessible_message {H}.
Arguments Print_placeholder {H} _.
Arguments Deallocate_exits {H}.
Arguments Print_execution_status {H} _ _.
Arguments Print_newline {H}.
Arguments Print_heatmap {H}.
Arguments Reset_integer_grid {H} _.
Arguments Print_single_exit_marker {H}.
Arguments Srand {H} _.
Arguments Print_double_grid {H}.
Arguments Insert_pedestrians_at_random {H} _ _.
Arguments Print_pedestrian_position_grid {H} _ _.
Arguments Print_timestep_header {H} _.
Arguments Evaluate_pedestrians_movements {H}.
Arguments Determine_pedestrians_in_panic {H}.
Arguments Block_X_movement {H}.
Arguments Identify_pedestrian_conflicts {H} _.
Arguments Solve_pedestrian_conflicts {H} _.
Arguments Print_pedestrian_conflict_information {H}.
Arguments Free_pedestrian_conflicts {H}.
Arguments Apply_pedestrian_movement {H} _.
Arguments Update_pedestrian_position_grid {H}.
Arguments Reset_pedestrian_state {H}.
Arguments Reset_pedestrian_panic {H}.
Arguments Sleep {H} _.
Arguments Reset_pedestrians_structures {H}.
Arguments Deallocate_pedestrians {H}.
Arguments Print_number_timesteps {H} _.
Arguments Fclose_files {H}.
Arguments Deallocate_grid {H} _.

(** ** A state-and-trace monad for the driver *)

Definition Prog (H A : Type) : Type := State H -> A * State H * list (Event H).

Definition ret {H A} (a : A) : Prog H A := fun s => (a, s, []).

Definition result_of {H A} (x : A * State H * list (Event H)) : A := fst (fst x).
Definition state_of {H A} (x : A * State H * list (Event H)) : State H :=
  snd (fst x).
Definition trace_of {H A} (x : A * State H * list (Event H)) : list (Event H) :=
  snd x.

Definition bind {H A B} (p : Prog H A) (k : A -> Prog H B) : Prog H B :=
  fun s =>
    let '(a, s1, t1) := p s in
    let '(b, s2, t2) := k a s1 in
    (b, s2, t1 ++ t2).

Declare Scope prog_scope.
Delimit Scope prog_scope with prog.
Notation "x <- p ;; k" := (bind p (fun x => k))
  (at level 100, p at next level, right associativity) : prog_scope.
Notation "p ;; k" := (bind p (fun _ => k))
  (at level 100, right associativity) : prog_scope.

(** Record a call that leaves the world alone (the printing routines). *)
Definition emit {H} (e : Event H) : Prog H unit := fun s => (tt, s, [e]).

(** A call [f()] of a [void] collaborator. *)
Definition call {H} (e : Event H)
    (f : Command_Line_Args -> World H -> World H) : Prog H unit :=
  fun s => (tt, mkState (f (cli_args s) (world s)) (cli_args s), [e]).

(** A call of a collaborator that returns a value; the event may show it. *)
Definition call_ret {H A} (e : A -> Event H)
    (f : Command_Line_Args -> World H -> A * World H) : Prog H A :=
  fun s =>
    let x := f (cli_args s) (world s) in
    (fst x, mkState (snd x) (cli_args s), [e (fst x)]).

Definition get_args {H} : Prog H Command_Line_Args :=
  fun s => (cli_args s, s, []).

Definition get_world {H} : Prog H (World H) :=
  fun s => (world s, s, []).

Definition when {H} (b : bool) (p : Prog H unit) : Prog H unit :=
  if b then p else ret tt.

(** What a loop that may run forever gives back for a bounded number of
    iterations. *)
Inductive Completion (A : Type) : Type :=
| Finished (a : A)
| Out_of_fuel.
Arguments Finished {A} _.
Arguments Out_of_fuel {A}.

(** ** The collaborators of main.c

    Every collaborator is a function of [cli_args] and the world.  Inside the
    loop of [main] only main.c writes [cli_args] (the seed), so a
    collaborator gets it to read and gives back the world alone; the printing
    routines give back nothing, they only appear in the trace. *)

(** A contested cell and the pedestrians (indices into the pedestrian set)
    that proposed it in the current timestep. *)
Record Cell_Conflict : Type := mkConflict {
  conflict_cell : Location;
  contenders : list nat
}.

(** pedestrian.h, the calls made inside one timestep. *)
Class Timestep_Api (H : Type) : Type := {
  evaluate_pedestrians_movements : Command_Line_Args -> World H -> World H;
  determine_pedestrians_in_panic : Command_Line_Args -> World H -> World H;
  block_X_movement : Command_Line_Args -> World H -> World H;
  identify_pedestrian_conflicts :
    Command_Line_Args -> World H ->
    (Function_Status * list Cell_Conflict) * World H;
  solve_pedestrian_conflicts :
    list Cell_Conflict -> Command_Line_Args -> World H ->
    Function_Status * World H;
  apply_pedestrian_movement : Command_Line_Args -> World H -> World H;
  update_pedestrian_position_grid : Command_Line_Args -> World H -> World H;
  reset_pedestrian_state : Command_Line_Args -> World H -> World H;
  reset_pedestrian_panic : Command_Line_Args -> World H -> World H
}.

(** pedestrian.h and cli_processing.h, the calls made around a run. *)
Class Run_Api (H : Type) : Type := {
  origin_uses_static_pedestrians : Command_Line_Args -> bool;
  insert_pedestrians_at_random :
    Z -> Command_Line_Args -> World H -> Function_Status * World H;
  is_environment_empty : Command_Line_Args -> World H -> bool;
  reset_pedestrians_structures : Command_Line_Args -> World H -> World H;
  deallocate_pedestrians : Command_Line_Args -> World H -> World H
}.

(** exit.h, initialization.h, grid.h and cli_processing.h, the calls made
    around a simulation set.  [get_next_simulation_set] receives the current
    value of the out-parameter [current_exit_number] and returns the new one. *)
Class Set_Api (H : Type) : Type := {
  origin_uses_auxiliary_data : Command_Line_Args -> bool;
  origin_uses_static_exits : Command_Line_Args -> bool;
  get_next_simulation_set :
    Z -> Command_Line_Args -> World H -> (Function_Status * Z) * World H;
  calculate_final_floor_field :
    Command_Line_Args -> World H -> Function_Status * World H;
  deallocate_exits : Command_Line_Args -> World H -> World H;
  reset_integer_grid : Int_Grid -> Z -> Z -> Int_Grid
}.

(** ** main.c *)

Section Driver.
Context {H : Type}.
Local Open Scope prog_scope.

Section Timestep.
Context `{TA : Timestep_Api H}.

(** [static Function_Status conflict_solving()] *)
Definition conflict_solving : Prog H Function_Status :=
  found <- call_ret (fun x => Identify_pedestrian_conflicts (fst x))
             identify_pedestrian_conflicts ;;
  let pedestrian_conflicts := snd found in
  if Function_Status_eqb (fst found) FAILURE then ret FAILURE
  else
    solved <- call_ret Solve_pedestrian_conflicts
                (solve_pedestrian_conflicts pedestrian_conflicts) ;;
    if Function_Status_eqb solved FAILURE then ret FAILURE
    else
      a <- get_args ;;
      when (show_debug_information a)
        (emit Print_pedestrian_conflict_information) ;;
      emit Free_pedestrian_conflicts ;;
      ret SUCCESS.

(** The body of [while(is_environment_empty() == false)] in
    [run_simulations]: FAILURE stands for the [return FAILURE] in its middle,
    SUCCESS for reaching the closing brace with [number_timesteps + 1]. *)
Definition timestep (simu_index number_timesteps : Z) : Prog H Function_Status :=
  a <- get_args ;;
  when (show_debug_information a)
    (emit (Print_timestep_header (number_timesteps + 1))) ;;
  call Evaluate_pedestrians_movements evaluate_pedestrians_movements ;;
  call Determine_pedestrians_in_panic determine_pedestrians_in_panic ;;
  when (negb (allow_X_movement a))
    (call Block_X_movement block_X_movement) ;;
  solved <- conflict_solving ;;
  if Function_Status_eqb solved FAILURE then ret FAILURE
  else
    call_ret Apply_pedestrian_movement
      (fun a w => let w' := apply_pedestrian_movement a w in (w', w')) ;;
    call Update_pedestrian_position_grid update_pedestrian_position_grid ;;
    call Reset_pedestrian_state reset_pedestrian_state ;;
    call Reset_pedestrian_panic reset_pedestrian_panic ;;
    when (Output_Format_eqb (output_format a) OUTPUT_VISUALIZATION)
      (when (negb (write_to_file a)) (emit (Sleep 1)) ;;
       emit (Print_pedestrian_position_grid simu_index (number_timesteps + 1))) ;;
    ret SUCCESS.

End Timestep.

Section Run.
Context `{TA : Timestep_Api H} `{RA : Run_Api H}.

(** The while loop of [run_simulations], cut after [fuel] timesteps. *)
Fixpoint timestep_loop (fuel : nat) (simu_index number_timesteps : Z)
    : Prog H (Completion (Function_Status * Z)) :=
  a <- get_args ;;
  w <- get_world ;;
  if is_environment_empty a w then ret (Finished (SUCCESS, number_timesteps))
  else
    match fuel with
    | O => ret Out_of_fuel
    | S fuel' =>
        r <- timestep simu_index number_timesteps ;;
        if Function_Status_eqb r FAILURE
        then ret (Finished (FAILURE, number_timesteps))
        else timestep_loop fuel' simu_index (number_timesteps + 1)
    end.

(** The increment part of the for loop: [cli_args.seed++]. *)
Definition increment_seed : Prog H unit :=
  fun s => (tt, mkState (world s) (set_seed (cli_args s) (seed (cli_args s) + 1)), []).

(** One iteration of the for loop of [run_simulations], its increment
    included. *)
Definition simulation_run (fuel : nat) (simu_index : Z)
    : Prog H (Completion Function_Status) :=
  a <- get_args ;;
  call (Srand (seed a)) (fun _ w => srand (seed a) w) ;;
  when (show_debug_information a) (emit Print_double_grid) ;;
  inserted <-
    (if negb (origin_uses_static_pedestrians a)
     then call_ret (Insert_pedestrians_at_random (total_num_pedestrians a))
            (insert_pedestrians_at_random (total_num_pedestrians a))
     else ret SUCCESS) ;;
  if Function_Status_eqb inserted FAILURE then ret (Finished FAILURE)
  else
    when (Output_Format_eqb (output_format a) OUTPUT_VISUALIZATION)
      (emit (Print_pedestrian_position_grid simu_index 0)) ;;
    looped <- timestep_loop fuel simu_index 0 ;;
    match looped with
    | Out_of_fuel => ret Out_of_fuel
    | Finished (FAILURE, _) => ret (Finished FAILURE)
    | Finished (_, number_timesteps) =>
        (if origin_uses_static_pedestrians a
         then call Reset_pedestrians_structures reset_pedestrians_structures
         else call Deallocate_pedestrians deallocate_pedestrians) ;;
        when (Output_Format_eqb (output_format a) OUTPUT_TIMESTEPS_COUNT)
          (emit (Print_number_timesteps number_timesteps)) ;;
        increment_seed ;;
        ret (Finished SUCCESS)
    end.

(** The for loop: [remaining] iterations are left, the next one has index
    [simu_index]. *)
Fixpoint simulation_runs (fuel : nat) (remaining : nat) (simu_index : Z)
    : Prog H (Completion Function_Status) :=
  match remaining with
  | O => ret (Finished SUCCESS)
  | S remaining' =>
      r <- simulation_run fuel simu_index ;;
      match r with
      | Finished SUCCESS => simulation_runs fuel remaining' (simu_index + 1)
      | other => ret other
      end
  end.

(** [static Function_Status run_simulations(FILE *output_file)] *)
Definition run_simulations (fuel : nat) : Prog H (Completion Function_Status) :=
  a <- get_args ;;
  w <- get_world ;;
  when (single_exit_flag a
        && Output_Format_eqb (output_format a) OUTPUT_TIMESTEPS_COUNT
        && (num_exits (exits_set w) =? 1))
    (emit Print_single_exit_marker) ;;
  simulation_runs fuel (Z.to_nat (num_simulations a)) 0.

End Run.

Section Sets.
Context `{TA : Timestep_Api H} `{RA : Run_Api H} `{SA : Set_Api H}.

(** [static void deallocate_program_structures(...)] *)
Definition deallocate_program_structures : Prog H unit :=
  emit Fclose_files ;;
  call Deallocate_pedestrians deallocate_pedestrians ;;
  call Deallocate_exits deallocate_exits ;;
  emit (Deallocate_grid Environment_only_grid) ;;
  emit (Deallocate_grid Pedestrian_position_grid) ;;
  emit (Deallocate_grid Heatmap_grid).

(** How one pass through the body of [do { ... } while(true)] ends. *)
Inductive Control : Type :=
| Next_iteration      (* [continue], or the closing brace *)
| Leave_loop          (* [break] *)
| Return_END_PROGRAM  (* [return END_PROGRAM] inside the loop *)
| Run_out_of_fuel.

(** The locals of [main] that change inside the loop. *)
Record Locals : Type := mkLocals {
  simulation_set_index : Z;
  current_exit_number : Z
}.

Definition next_set (l : Locals) : Locals :=
  mkLocals (simulation_set_index l + 1) (current_exit_number l).

(** The part of the loop body after [calculate_final_floor_field], lines
    81 to 120. *)
Definition after_floor_field (fuel : nat) (simulation_set_quantity : Z)
    (l : Locals) (returned_value : Function_Status) : Prog H (Control * Locals) :=
  a <- get_args ;;
  match returned_value with
  | FAILURE => ret (Return_END_PROGRAM, l)
  | INACCESSIBLE_EXIT =>
      (if negb (Output_Format_eqb (output_format a) OUTPUT_TIMESTEPS_COUNT)
       then emit Print_inaccessible_message
       else emit (Print_placeholder (-1))) ;;
      when (origin_uses_auxiliary_data a)
        (call Deallocate_exits deallocate_exits) ;;
      emit (Print_execution_status (simulation_set_index l)
              simulation_set_quantity) ;;
      ret (Next_iteration, next_set l)
  | SUCCESS =>
      ran <- run_simulations fuel ;;
      match ran with
      | Out_of_fuel => ret (Run_out_of_fuel, l)
      | Finished FAILURE => ret (Return_END_PROGRAM, l)
      | Finished _ =>
          when (origin_uses_auxiliary_data a)
            (call Deallocate_exits deallocate_exits) ;;
          when (Output_Format_eqb (output_format a) OUTPUT_TIMESTEPS_COUNT)
            (emit Print_newline) ;;
          when (Output_Format_eqb (output_format a) OUTPUT_HEATMAP)
            (emit Print_heatmap ;;
             call (Reset_integer_grid Heatmap_grid)
               (fun a w =>
                  set_heatmap_grid w
                    (reset_integer_grid (heatmap_grid w)
                       (global_line_number a) (global_column_number a)))) ;;
          emit (Print_execution_status (simulation_set_index l)
                  simulation_set_quantity) ;;
          if origin_uses_static_exits a
          then ret (Leave_loop, next_set l)
          else ret (Next_iteration, next_set l)
      end
  end.

(** One pass through the body of the do-while loop of [main]. *)
Definition main_iteration (fuel : nat) (simulation_set_quantity : Z)
    (l : Locals) : Prog H (Control * Locals) :=
  a <- get_args ;;
  fetched <-
    (if origin_uses_auxiliary_data a
     then call_ret (fun x => Get_next_simulation_set (fst x) (snd x))
            (get_next_simulation_set (current_exit_number l))
     else ret (SUCCESS, current_exit_number l)) ;;
  let l := mkLocals (simulation_set_index l) (snd fetched) in
  if Function_Status_eqb (fst fetched) FAILURE then ret (Return_END_PROGRAM, l)
  else if origin_uses_auxiliary_data a && (current_exit_number l =? 0)
  then ret (Leave_loop, l)
  else
    when (show_simulation_set_info a) (emit Print_simulation_set_information) ;;
    returned_value <- call_ret Calculate_final_floor_field
                        calculate_final_floor_field ;;
    after_floor_field fuel simulation_set_quantity l returned_value.

(** How [main] ends. *)
Inductive Ending : Type :=
| Returned_inside_loop
| Returned_at_end.

(** The do-while loop of [main] followed by lines 124 to 126, cut after
    [sets] passes; every run is cut after [fuel] timesteps. *)
Fixpoint main_loop (sets fuel : nat) (simulation_set_quantity : Z) (l : Locals)
    : Prog H (Completion Ending) :=
  match sets with
  | O => ret Out_of_fuel
  | S sets' =>
      r <- main_iteration fuel simulation_set_quantity l ;;
      match r with
      | (Next_iteration, l') => main_loop sets' fuel simulation_set_quantity l'
      | (Leave_loop, _) =>
          deallocate_program_structures ;; ret (Finished Returned_at_end)
      | (Return_END_PROGRAM, _) => ret (Finished Returned_inside_loop)
      | (Run_out_of_fuel, _) => ret Out_of_fuel
      end
  end.

(** [main] from line 66 on: initialisation (lines 33 to 64) has succeeded and
    left [simulation_set_quantity]. *)
Definition main (sets fuel : nat) (simulation_set_quantity : Z)
    : Prog H (Completion Ending) :=
  main_loop sets fuel simulation_set_quantity (mkLocals 0 0).

End Sets.
End Driver.

(** ** main.c, lines 25 to 64: the initialisation of [main]

    The calls [main] makes before its loop.  They live in other translation
    units (cli_processing.h, initialization.h, printing_utilities.h) and may
    write any global, [cli_args] included: each is a function of the whole
    state.  Of the two [FILE *] locals only [auxiliary_file != NULL] is ever
    inspected; the streams themselves are part of the world.  A call of
    [argp_parse] that ends the process itself, as the library does for a
    request for help, is outside the model. *)

Inductive Init_Event : Type :=
| Argp_parse (code : Z)
| Open_auxiliary_file (r : Function_Status) (opened : bool)
| Open_output_file (r : Function_Status)
| Fclose_auxiliary_file
| Load_environment (r : Function_Status)
| Generate_environment (r : Function_Status)
| Print_full_command
| Extract_simulation_set_quantity (q : Z).

(** [AUTOMATIC_CREATED] is a constant of cli_processing.h, which is not among
    the sources.  [open_auxiliary_file] also tells whether it left
    [auxiliary_file] different from NULL. *)
Class Init_Api (H : Type) : Type := {
  AUTOMATIC_CREATED : Z;
  argp_parse : list String.string -> State H -> Z * State H;
  open_auxiliary_file : State H -> (Function_Status * bool) * State H;
  open_output_file : State H -> Function_Status * State H;
  load_environment : State H -> Function_Status * State H;
  generate_environment : State H -> Function_Status * State H;
  extract_simulation_set_quantity : State H -> Z * State H
}.

Definition Init_Prog (H A : Type) : Type :=
  State H -> A * State H * list Init_Event.

Definition init_ret {H A} (a : A) : Init_Prog H A := fun s => (a, s, []).

Definition init_bind {H A B} (p : Init_Prog H A) (k : A -> Init_Prog H B)
    : Init_Prog H B :=
  fun s =>
    let '(a, s1, t1) := p s in
    let '(b, s2, t2) := k a s1 in
    (b, s2, t1 ++ t2).

Declare Scope init_scope.
Delimit Scope init_scope with init.
Notation "x <- p ;; k" := (init_bind p (fun x => k))
  (at level 100, p at next level, right associativity) : init_scope.
Notation "p ;; k" := (init_bind p (fun _ => k))
  (at level 100, right associativity) : init_scope.

Definition init_emit {H} (e : Init_Event) : Init_Prog H unit :=
  fun s => (tt, s, [e]).

Definition init_call {H A} (e : A -> Init_Event) (f : State H -> A * State H)
    : Init_Prog H A :=
  fun s => let x := f s in (fst x, snd x, [e (fst x)]).

Definition init_args {H} : Init_Prog H Command_Line_Args :=
  fun s => (cli_args s, s, []).

(** How lines 25 to 64 end: at one of their [return END_PROGRAM], or at the
    [do] of line 66 with the locals as they are then. *)
Inductive Startup : Type :=
| Return_early
| Enter_loop (auxiliary_file : bool) (simulation_set_quantity : Z).

(** Where [main] returns. *)
Inductive Program_End : Type :=
| Returned_in_initialisation
| Returned_from_loop (e : Ending).

Section Initialisation.
Context {H : Type} `{IA : Init_Api H}.
Local Open Scope init_scope.

(** [main], lines 25 to 64. *)
Definition initialisation (argv : list String.string) : Init_Prog H Startup :=
  code <- init_call Argp_parse (argp_parse argv) ;;
  if negb (code =? 0) then init_ret Return_early
  else
    opened <- init_call (fun x => Open_auxiliary_file (fst x) (snd x))
                open_auxiliary_file ;;
    let auxiliary_file := snd opened in
    if Function_Status_eqb (fst opened) FAILURE then init_ret Return_early
    else
      output <- init_call Open_output_file open_output_file ;;
      if Function_Status_eqb output FAILURE
      then
        (if auxiliary_file then init_emit Fclose_auxiliary_file
         else init_ret tt) ;;
        init_ret Return_early
      else
        a <- init_args ;;
        loaded <-
          (if negb (environment_origin a =? AUTOMATIC_CREATED)
           then init_call Load_environment load_environment
           else init_call Generate_environment generate_environment) ;;
        if Function_Status_eqb loaded FAILURE then init_ret Return_early
        else
          init_emit Print_full_command ;;
          if auxiliary_file
          then
            quantity <- init_call Extract_simulation_set_quantity
                          extract_simulation_set_quantity ;;
            if quantity =? -1 then init_ret Return_early
            else init_ret (Enter_loop auxiliary_file quantity)
          else init_ret (Enter_loop auxiliary_file 1).

Context `{TA : Timestep_Api H} `{RA : Run_Api H} `{SA : Set_Api H}.

(** [int main(int argc, char **argv)], whole: the initialisation, then the
    loop and what follows it.  The calls of the two parts are kept apart. *)
Definition program (argv : list String.string) (sets fuel : nat) (s : State H)
    : Completion Program_End * State H * (list Init_Event * list (Event H)) :=
  let '(started, s1, t1) := initialisation argv s in
  match started with
  | Return_early => (Finished Returned_in_initialisation, s1, (t1, []))
  | Enter_loop _ simulation_set_quantity =>
      let '(ended, s2, t2) := main sets fuel simulation_set_quantity s1 in
      (match ended with
       | Finished e => Finished (Returned_from_loop e)
       | Out_of_fuel => Out_of_fuel
       end, s2, (t1, t2))
  end.

End Initialisation.


(** ** The core behind the collaborators *)

Module Core.

(** Modelled from the spec: the cell kinds of the environment grid, whose
    declaration (grid.h, shared_resources.h) is missing from the sources;
    section 6: floor, obstacle, exit. *)
Inductive Cell_Kind : Type :=
| Floor
| Obstacle
| Exit_door.

(** Modelled from the spec: the movement-outcome flag of a pedestrian, whose
    declaration (pedestrian.h) is missing from the sources; section 3: moved /
    blocked / stayed-by-loss, with the value it is reset to. *)
Inductive Movement_Outcome : Type :=
| No_outcome
| Moved
| Blocked
| Stayed_by_loss.

(** Modelled from the spec: the pedestrian structure, whose declaration
    (pedestrian.h) is missing from the sources; section 3: a position, the
    panic state, and the transient fields, a proposed target and an outcome
    flag.  A target equal to the position is the move "stay". *)
Record Pedestrian : Type := mkPedestrian {
  position : Location;
  in_panic : bool;
  target : Location;
  outcome : Movement_Outcome
}.

(** The globals behind [rest]: environment, occupancy grid, pedestrian set. *)
Record Registry : Type := mkRegistry {
  environment_only_grid : list (list Cell_Kind);
  pedestrian_position_grid : Int_Grid;
  pedestrians : list Pedestrian
}.

#[global] Instance Location_eq_dec : EqDecision Location.
Proof. solve_decision. Defined.

#[global] Instance Movement_Outcome_eq_dec : EqDecision Movement_Outcome.
Proof. solve_decision. Defined.

(** [g[i][j]], nothing outside the grid. *)
Definition cell {A} (g : list (list A)) (i j : nat) : option A :=
  match g !! i with
  | Some row => row !! j
  | None => None
  end.

Definition grid_at {A} (g : list (list A)) (c : Location) : option A :=
  if (0 <=? lin c) && (0 <=? col c)
  then cell g (Z.to_nat (lin c)) (Z.to_nat (col c))
  else None.

(** *** Floor-field combination *)

(** [a <= b] on field values, the sentinel above every finite value. *)
Definition weight_leb (a b : Weight) : bool :=
  match a, b with
  | _, Infinite => true
  | Infinite, Finite _ => false
  | Finite x, Finite y => Qle_bool x y
  end.

Definition weight_le (a b : Weight) : Prop :=
  match a, b with
  | _, Infinite => True
  | Infinite, Finite _ => False
  | Finite x, Finite y => (x <= y)%Q
  end.

Definition is_finite (a : Weight) : bool :=
  match a with Finite _ => true | Infinite => false end.

(** The smaller of two values; the one already stored wins a tie. *)
Definition weight_min (stored new : Weight) : Weight :=
  if weight_leb stored new then stored else new.

(** A [lines] x [columns] grid holding [v] everywhere. *)
Definition constant_grid {A} (lines columns : nat) (v : A) : list (list A) :=
  replicate lines (replicate columns v).

Definition has_dimensions {A} (lines columns : nat) (g : list (list A)) : bool :=
  (length g =? lines)%nat && forallb (fun row => (length row =? columns)%nat) g.

(** Cell by cell, the smaller of the value stored and the exit's value. *)
Definition merge_field (stored exit_field : Double_Grid) : Double_Grid :=
  zip_with (zip_with weight_min) stored exit_field.

(** Modelled from the spec: the combination step of exit.c, missing from the
    sources; [combine] of section 4.1, the cell-wise minimum of all exits'
    fields, started from a grid where nothing is reachable. *)
Definition combine (lines columns : nat) (exits : list Exit) : Double_Grid :=
  fold_left (fun stored e => merge_field stored (floor_field e)) exits
    (constant_grid lines columns Infinite).

Definition walkable_kind (k : Cell_Kind) : bool :=
  match k with Obstacle => false | _ => true end.

(** Some walkable cell of the environment has no finite value in [field]. *)
Definition unreached_row (kinds : list Cell_Kind) (values : list Weight) : bool :=
  existsb (fun kv => walkable_kind (fst kv) && negb (is_finite (snd kv)))
    (zip kinds values).

Definition has_unreached_cell (env : list (list Cell_Kind)) (field : Double_Grid)
    : bool :=
  existsb (fun rows => unreached_row (fst rows) (snd rows)) (zip env field).

Section Floor_Field.
(** The per-exit propagation is left open: any function from the environment
    and an exit to a grid. *)
Variable build_exit_field : list (list Cell_Kind) -> Exit -> Double_Grid.

(** Modelled from the spec: [calculate_final_floor_field] of exit.c, missing
    from the sources (exit.h declares it); sections 2 and 4.1: every exit's
    own field is computed, the fields are combined, and the status is
    INACCESSIBLE_EXIT when a walkable cell stays without a finite value,
    SUCCESS otherwise.  Allocation never fails here. *)
Definition calculate_final_floor_field
    (a : Command_Line_Args) (w : World Registry) : Function_Status * World Registry :=
  let env := environment_only_grid (rest w) in
  let built :=
    map (fun e => mkExit (width e) (coordinates e) (build_exit_field env e))
      (exits_list (exits_set w)) in
  let final :=
    combine (Z.to_nat (global_line_number a)) (Z.to_nat (global_column_number a))
      built in
  let w' :=
    mkWorld (rand_state w)
      (mkExits_Set final built (num_exits (exits_set w)))
      (heatmap_grid w) (rest w) in
  (if has_unreached_cell env final then INACCESSIBLE_EXIT else SUCCESS, w').

End Floor_Field.

(** *** The pedestrian automaton *)

(** The policies the specification leaves open (section 9), and the library
    generator. *)
Record Policies : Type := mkPolicies {
  (* the value of the n-th [rand()] after [srand(seed)] *)
  rand_value : Z -> nat -> Z;
  (* the cells one step away: 4- or 8-connectivity *)
  neighbours : Location -> list Location;
  (* which cell of a pool a pedestrian proposes, given its panic state and a
     random draw: an index into the pool; the tie-break among the candidates
     of lowest score, or the choice of a pedestrian in panic *)
  choose : bool -> list Location -> Z -> nat;
  (* whether a pedestrian enters panic, given a random draw *)
  enters_panic : Registry -> Pedestrian -> Z -> bool;
  (* whether a proposed step (from, to) is purely sideways *)
  lateral_only : Location -> Location -> bool;
  (* which contender wins a conflict, given the floor field, the pedestrians
     and a random draw: an index, taken modulo the number of contenders *)
  conflict_draw : Double_Grid -> list Pedestrian -> Cell_Conflict -> Z -> nat
}.

Section Automaton.
Variable P : Policies.

(** stdlib.h: the next value of the sequence, and the advanced state. *)
Definition rand (r : Rand_State) : Z * Rand_State :=
  (rand_value P (seeded_with r) (draws r), mkRand (seeded_with r) (S (draws r))).

Definition set_target (p : Pedestrian) (t : Location) : Pedestrian :=
  mkPedestrian (position p) (in_panic p) t (outcome p).

Definition set_panic (p : Pedestrian) (b : bool) : Pedestrian :=
  mkPedestrian (position p) b (target p) (outcome p).

(** The accepted move reverts to "stay" and the pedestrian is marked blocked. *)
Definition block (p : Pedestrian) : Pedestrian :=
  mkPedestrian (position p) (in_panic p) (position p) Blocked.

Definition walkable (env : list (list Cell_Kind)) (c : Location) : bool :=
  match grid_at env c with
  | Some k => walkable_kind k
  | None => false
  end.

Definition unoccupied (occupancy : Int_Grid) (c : Location) : bool :=
  match grid_at occupancy c with
  | Some v => v =? 0
  | None => false
  end.

Definition field_at (field : Double_Grid) (c : Location) : Weight :=
  match grid_at field c with
  | Some v => v
  | None => Infinite
  end.

(** The candidate cells of a pedestrian: its own cell ("stay") and the
    walkable, unoccupied neighbours. *)
Definition candidates (reg : Registry) (p : Pedestrian) : list Location :=
  position p ::
  filter (fun c => Is_true (walkable (environment_only_grid reg) c
                            && unoccupied (pedestrian_position_grid reg) c))
    (neighbours P (position p)).

(** The candidates whose score no other candidate's score is below. *)
Definition lowest (scored : list (Location * Weight)) : list Location :=
  map fst
    (filter (fun cw => Is_true (forallb (fun other => weight_leb (snd cw) (snd other))
                                  scored))
       scored).

(** Modelled from the spec: the proposal of one pedestrian (pedestrian.c,
    missing from the sources) for a random draw [x]; section 4.3, step 1: a
    candidate of lowest floor-field value, the policy breaking ties; a
    pedestrian in panic picks among all candidates. *)
Definition propose (reg : Registry) (field : Double_Grid) (x : Z)
    (p : Pedestrian) : Pedestrian :=
  let cs := candidates reg p in
  let scored := map (fun c => (c, field_at field c)) cs in
  let pool := if in_panic p then cs else lowest scored in
  set_target p (nth (choose P (in_panic p) pool x) pool (position p)).

(** Apply [step], which consumes one random draw, to every pedestrian in the
    order of the pedestrian set. *)
Fixpoint for_each_pedestrian (step : Z -> Pedestrian -> Pedestrian)
    (r : Rand_State) (ps : list Pedestrian) : list Pedestrian * Rand_State :=
  match ps with
  | [] => ([], r)
  | p :: ps' =>
      let '(x, r1) := rand r in
      let '(done, r2) := for_each_pedestrian step r1 ps' in
      (step x p :: done, r2)
  end.

Definition with_pedestrians (w : World Registry) (r : Rand_State)
    (ps : list Pedestrian) : World Registry :=
  mkWorld r (exits_set w) (heatmap_grid w)
    (mkRegistry (environment_only_grid (rest w))
       (pedestrian_position_grid (rest w)) ps).

(** Modelled from the spec: [evaluate_pedestrians_movements] of pedestrian.c,
    missing from the sources; the movement proposal of section 4.3, step 1,
    for every pedestrian in turn. *)
Definition evaluate_pedestrians_movements
    (a : Command_Line_Args) (w : World Registry) : World Registry :=
  let '(ps, r) :=
    for_each_pedestrian (propose (rest w) (final_floor_field (exits_set w)))
      (rand_state w) (pedestrians (rest w)) in
  with_pedestrians w r ps.

(** Modelled from the spec: [determine_pedestrians_in_panic] of pedestrian.c,
    missing from the sources; the panic determination of section 4.3, step 2;
    a pedestrian in panic stays so until the explicit reset. *)
Definition determine_pedestrians_in_panic
    (a : Command_Line_Args) (w : World Registry) : World Registry :=
  let '(ps, r) :=
    for_each_pedestrian
      (fun x p => set_panic p (in_panic p || enters_panic P (rest w) p x))
      (rand_state w) (pedestrians (rest w)) in
  with_pedestrians w r ps.

(** Modelled from the spec: [block_X_movement] of pedestrian.c, missing from
    the sources; the movement restriction of section 4.3, step 3, as the
    phase main.c runs after the proposals: a purely sideways proposal is
    withdrawn. *)
Definition block_X_movement
    (a : Command_Line_Args) (w : World Registry) : World Registry :=
  with_pedestrians w (rand_state w)
    (map (fun p => if lateral_only P (position p) (target p) then block p else p)
       (pedestrians (rest w))).

(** The indices of the pedestrians that propose [t]. *)
Definition proposers (t : Location) (ps : list Pedestrian) : list nat :=
  filter (fun i => Is_true (bool_decide (target <$> ps !! i = Some t)))
    (seq 0 (length ps)).

(** Modelled from the spec: the grouping behind
    [identify_pedestrian_conflicts] (pedestrian.c, missing from the sources);
    [identify_conflicts] of section 4.4: pedestrians are grouped by proposed
    target; only cells proposed by two or more become a conflict. *)
Definition identify_conflicts (ps : list Pedestrian) : list Cell_Conflict :=
  filter (fun c => (2 <= length (contenders c))%nat)
    (map (fun t => mkConflict t (proposers t ps))
       (remove_dups (map target ps))).

(** Modelled from the spec: [identify_pedestrian_conflicts] of pedestrian.c,
    missing from the sources; the conflicts of the current proposals (section
    4.4); allocation never fails here. *)
Definition identify_pedestrian_conflicts
    (a : Command_Line_Args) (w : World Registry)
    : (Function_Status * list Cell_Conflict) * World Registry :=
  ((SUCCESS, identify_conflicts (pedestrians (rest w))), w).

Section Resolve.
(** The winner policy, with the floor field and the pedestrians it looks at. *)
Variable draw : Cell_Conflict -> Z -> nat.

(** The winner of a conflict for a random draw [x]. *)
Definition winner (c : Cell_Conflict) (x : Z) : nat :=
  nth (draw c x mod length (contenders c))%nat (contenders c) 0%nat.

(** Every contender but the winner reverts to "stay", marked blocked. *)
Definition settle (c : Cell_Conflict) (x : Z) (ps : list Pedestrian)
    : list Pedestrian :=
  imap (fun i p =>
          if bool_decide (i ∈ contenders c) && negb (i =? winner c x)%nat
          then block p else p) ps.

(** Modelled from the spec: the resolution behind
    [solve_pedestrian_conflicts] (pedestrian.c, missing from the sources);
    [resolve] of section 4.4: one draw and one winner per conflict, in the
    order of the conflict set. *)
Fixpoint resolve (cs : list Cell_Conflict) (r : Rand_State)
    (ps : list Pedestrian) : list Pedestrian * Rand_State :=
  match cs with
  | [] => (ps, r)
  | c :: cs' =>
      let '(x, r1) := rand r in
      resolve cs' r1 (settle c x ps)
  end.

End Resolve.

(** Modelled from the spec: [solve_pedestrian_conflicts] of pedestrian.c,
    missing from the sources; the conflicts handed over are resolved (section
    4.4); allocation never fails here. *)
Definition solve_pedestrian_conflicts (cs : list Cell_Conflict)
    (a : Command_Line_Args) (w : World Registry)
    : Function_Status * World Registry :=
  let draw := conflict_draw P (final_floor_field (exits_set w))
                (pedestrians (rest w)) in
  let '(ps, r) := resolve draw cs (rand_state w) (pedestrians (rest w)) in
  (SUCCESS, with_pedestrians w r ps).

(** The accepted move of a pedestrian is carried out. *)
Definition move (p : Pedestrian) : Pedestrian :=
  if bool_decide (target p = position p) then p
  else mkPedestrian (target p) (in_panic p) (target p) Moved.

Definition on_exit (env : list (list Cell_Kind)) (p : Pedestrian) : bool :=
  match grid_at env (position p) with
  | Some Exit_door => true
  | _ => false
  end.

(** Modelled from the spec: [apply_pedestrian_movement] of pedestrian.c,
    missing from the sources; accepted moves are applied (section 2), and a
    pedestrian that reached an exit is removed (section 3). *)
Definition apply_pedestrian_movement
    (a : Command_Line_Args) (w : World Registry) : World Registry :=
  with_pedestrians w (rand_state w)
    (filter (fun p => Is_true (negb (on_exit (environment_only_grid (rest w)) p)))
       (map move (pedestrians (rest w)))).

(** The occupancy of a [lines] x [columns] grid: 1 where a pedestrian stands. *)
Definition occupancy (lines columns : Z) (ps : list Pedestrian) : Int_Grid :=
  map (fun i =>
         map (fun j =>
                if bool_decide (mkLocation i j ∈ map position ps) then 1 else 0)
           (seqZ 0 columns))
    (seqZ 0 lines).

(** Modelled from the spec: [update_pedestrian_position_grid] of
    pedestrian.c, missing from the sources; the occupancy grid is rewritten
    in full and the heatmap counts the visit (sections 3, 4.5 and 5). *)
Definition update_pedestrian_position_grid
    (a : Command_Line_Args) (w : World Registry) : World Registry :=
  let grid :=
    occupancy (global_line_number a) (global_column_number a)
      (pedestrians (rest w)) in
  mkWorld (rand_state w) (exits_set w)
    (zip_with (zip_with Z.add) (heatmap_grid w) grid)
    (mkRegistry (environment_only_grid (rest w)) grid (pedestrians (rest w))).

(** Modelled from the spec: [reset_pedestrian_state] of pedestrian.c, missing
    from the sources; the transient fields are reset (section 4.5). *)
Definition reset_pedestrian_state
    (a : Command_Line_Args) (w : World Registry) : World Registry :=
  with_pedestrians w (rand_state w)
    (map (fun p => mkPedestrian (position p) (in_panic p) (position p) No_outcome)
       (pedestrians (rest w))).

(** Modelled from the spec: [reset_pedestrian_panic] of pedestrian.c, missing
    from the sources; the explicit reset of the panic state (section 4.3,
    step 2). *)
Definition reset_pedestrian_panic
    (a : Command_Line_Args) (w : World Registry) : World Registry :=
  with_pedestrians w (rand_state w)
    (map (fun p => set_panic p false) (pedestrians (rest w))).

(** The automaton behind the timestep of main.c. *)
#[export] Instance timestep_api : Timestep_Api Registry :=
  Build_Timestep_Api Registry
    evaluate_pedestrians_movements
    determine_pedestrians_in_panic
    block_X_movement
    identify_pedestrian_conflicts
    solve_pedestrian_conflicts
    apply_pedestrian_movement
    update_pedestrian_position_grid
    reset_pedestrian_state
    reset_pedestrian_panic.

End Automaton.

End Core.

(** ** A scripted hall to run the driver in

    One pedestrian leaves per timestep; the auxiliary file holds
    [pending_sets] more exit combinations; conflict solving and the floor-field
    computation answer as the script says. *)

Module Hall.

Record Script : Type := mkScript {
  inside : nat;
  pending_sets : nat;
  conflicts_fail : bool;
  exits_reachable : bool
}.

Definition with_script (w : World Script) (h : Script) : World Script :=
  mkWorld (rand_state w) (exits_set w) (heatmap_grid w) h.

Definition with_inside (w : World Script) (n : nat) : World Script :=
  with_script w
    (mkScript n (pending_sets (rest w)) (conflicts_fail (rest w))
       (exits_reachable (rest w))).

#[export] Instance timestep_api : Timestep_Api Script :=
  Build_Timestep_Api Script
    (fun _ w => w)
    (fun _ w => w)
    (fun _ w => w)
    (fun _ w => ((SUCCESS, []), w))
    (fun _ _ w => (if conflicts_fail (rest w) then FAILURE else SUCCESS, w))
    (fun _ w => with_inside w (Nat.pred (inside (rest w))))
    (fun _ w =>
       set_heatmap_grid w
         (map (map (fun v => v + Z.of_nat (inside (rest w)))) (heatmap_grid w)))
    (fun _ w => w)
    (fun _ w => w).

#[export] Instance run_api : Run_Api Script :=
  Build_Run_Api Script
    (fun _ => false)
    (fun n _ w => (SUCCESS, with_inside w (Z.to_nat n)))
    (fun _ w => (inside (rest w) =? 0)%nat)
    (fun _ w => w)
    (fun _ w => with_inside w 0).

(** Origin 0 reads its exits from the auxiliary file, any other origin has
    static exits. *)
#[export] Instance set_api : Set_Api Script :=
  Build_Set_Api Script
    (fun a => environment_origin a =? 0)
    (fun a => negb (environment_origin a =? 0))
    (fun current_exit_number _ w =>
       match pending_sets (rest w) with
       | O => ((SUCCESS, 0), w)
       | S k =>
           ((SUCCESS, 1),
            mkWorld (rand_state w) (mkExits_Set [] [] 1) (heatmap_grid w)
              (mkScript (inside (rest w)) k (conflicts_fail (rest w))
                 (exits_reachable (rest w))))
       end)
    (fun _ w =>
       (if exits_reachable (rest w) then SUCCESS else INACCESSIBLE_EXIT, w))
    (fun _ w => mkWorld (rand_state w) (mkExits_Set [] [] 0) (heatmap_grid w) (rest w))
    (fun g _ _ => map (map (fun _ => 0)) g).

Definition args (origin : Z) (format : Output_Format) (runs pedestrians : Z)
    : Command_Line_Args :=
  mkArgs origin format true false false true false 1 1 runs pedestrians 7.

Definition start (origin : Z) (format : Output_Format) (runs pedestrians : Z)
    (h : Script) : State Script :=
  mkState (mkWorld (mkRand 0 0) (mkExits_Set [] [] 1) [[0]] h)
    (args origin format runs pedestrians).

End Hall.

(** ** A small room for the automaton

    Three by three cells, an exit in the middle of the top and of the bottom
    wall, the corners of both walls blocked. *)

Module Room.
Import Core.

Definition environment : list (list Cell_Kind) :=
  [ [Obstacle; Exit_door; Obstacle];
    [Floor;    Floor;     Floor];
    [Obstacle; Exit_door; Obstacle] ].

Definition top_exit : Exit :=
  mkExit 1 [mkLocation 0 1]
    [ [Infinite; Finite 0; Infinite];
      [Finite 2; Finite 1; Finite 2];
      [Infinite; Finite 2; Infinite] ].

Definition bottom_exit : Exit :=
  mkExit 1 [mkLocation 2 1]
    [ [Infinite; Finite 2; Infinite];
      [Finite 2; Finite 1; Finite 2];
      [Infinite; Finite 0; Infinite] ].

(** Four-connectivity; the first candidate of lowest score is proposed,
    unless the pedestrian is in panic, when the draw picks; every draw of an
    even number starts a panic; a step within a row is sideways; the draw
    picks the winner of a conflict. *)
Definition policies (always_panic : bool) : Policies :=
  mkPolicies
    (fun s n => (s * 31 + Z.of_nat n * 17) mod 101)
    (fun c => [ mkLocation (lin c - 1) (col c); mkLocation (lin c + 1) (col c);
                mkLocation (lin c) (col c - 1); mkLocation (lin c) (col c + 1) ])
    (fun panic pool x => if panic then Z.to_nat x mod length pool else 0)%nat
    (fun _ _ x => always_panic || (x mod 2 =? 0))
    (fun from to => (lin from =? lin to) && negb (col from =? col to))
    (fun _ _ _ x => Z.to_nat x).

Definition pedestrian_at (l c : Z) : Pedestrian :=
  mkPedestrian (mkLocation l c) false (mkLocation l c) No_outcome.

Definition arguments : Command_Line_Args :=
  mkArgs 1 OUTPUT_TIMESTEPS_COUNT true false false true false 3 3 1 2 7.

(** Two pedestrians, left and right of the middle cell. *)
Definition two_pedestrians : State Registry :=
  let ps := [pedestrian_at 1 0; pedestrian_at 1 2] in
  mkState
    (mkWorld (mkRand 7 0)
       (mkExits_Set (combine 3 3 [top_exit; bottom_exit])
          [top_exit; bottom_exit] 2)
       (constant_grid 3 3 0)
       (mkRegistry environment (occupancy 3 3 ps) ps))
    arguments.

(** The pedestrians are fixed; the environment is empty when the pedestrian
    set is. *)
#[export] Instance run_api : Run_Api Registry :=
  Build_Run_Api Registry
    (fun _ => true)
    (fun _ _ w => (SUCCESS, w))
    (fun _ w => match pedestrians (rest w) with [] => true | _ => false end)
    (fun _ w => w)
    (fun _ w => with_pedestrians w (rand_state w) []).

End Room.

(** ** A scripted desk for the initialisation

    Every call answers as the plan says and leaves the state alone, except
    that [argp_parse] stores the origin it is told. *)

Module Desk.

Record Plan : Type := mkPlan {
  parse_code : Z;
  origin : Z;
  auxiliary_status : Function_Status;
  auxiliary_opened : bool;
  output_status : Function_Status;
  environment_status : Function_Status;
  quantity : Z
}.

Definition with_origin (a : Command_Line_Args) (o : Z) : Command_Line_Args :=
  mkArgs o (output_format a) (write_to_file a) (show_debug_information a)
    (show_simulation_set_info a) (allow_X_movement a) (single_exit_flag a)
    (global_line_number a) (global_column_number a) (num_simulations a)
    (total_num_pedestrians a) (seed a).

(** Origin 0 reads a file, origin 9 is created automatically. *)
Definition init_api (p : Plan) : Init_Api Hall.Script :=
  Build_Init_Api Hall.Script
    9
    (fun _ s => (parse_code p, mkState (world s) (with_origin (cli_args s) (origin p))))
    (fun s => ((auxiliary_status p, auxiliary_opened p), s))
    (fun s => (output_status p, s))
    (fun s => (environment_status p, s))
    (fun s => (environment_status p, s))
    (fun s => (quantity p, s)).

End Desk.

(** ** The phases of a timestep *)

Inductive Phase : Type :=
| Evaluate_movements
| Determine_panic
| Block_lateral_movement
| Conflict_solving
| Apply_movement
| Update_grids
| Reset_transient_state
| Reset_panic.

(** The phase a call opens; [conflict_solving] opens with
    [identify_pedestrian_conflicts]. *)
Definition phase_of {H} (e : Event H) : option Phase :=
  match e with
  | Evaluate_pedestrians_movements => Some Evaluate_movements
  | Determine_pedestrians_in_panic => Some Determine_panic
  | Block_X_movement => Some Block_lateral_movement
  | Identify_pedestrian_conflicts _ => Some Conflict_solving
  | Apply_pedestrian_movement _ => Some Apply_movement
  | Update_pedestrian_position_grid => Some Update_grids
  | Reset_pedestrian_state => Some Reset_transient_state
  | Reset_pedestrian_panic => Some Reset_panic
  | _ => None
  end.

Definition phases {H} (t : list (Event H)) : list Phase := omap phase_of t.

(** The phases up to conflict solving. *)
Definition phases_to_conflicts (a : Command_Line_Args) : list Phase :=
  [Evaluate_movements; Determine_panic]
  ++ (if allow_X_movement a then [] else [Block_lateral_movement])
  ++ [Conflict_solving].

(** The seven phases of the state machine, in order. *)
Definition listed_phases (a : Command_Line_Args) : list Phase :=
  phases_to_conflicts a ++ [Apply_movement; Update_grids; Reset_transient_state].

(** What a timestep that reaches its end goes through. *)
Definition completed_phases (a : Command_Line_Args) : list Phase :=
  listed_phases a ++ [Reset_panic].

(** The state in which a timestep reaches [conflict_solving]. *)
Definition before_conflicts {H} `{TA : Timestep_Api H} (s : State H) : State H :=
  let a := cli_args s in
  let w := determine_pedestrians_in_panic a
             (evaluate_pedestrians_movements a (world s)) in
  mkState (if allow_X_movement a then w else block_X_movement a w) a.

(** ** Failures of conflict solving in a trace *)

Definition conflict_failure {H} (e : Event H) : bool :=
  match e with
  | Identify_pedestrian_conflicts FAILURE => true
  | Solve_pedestrian_conflicts FAILURE => true
  | _ => false
  end.

(** No call of conflict solving failed. *)
Definition quiet {H} (t : list (Event H)) : bool :=
  forallb (fun e => negb (conflict_failure e)) t.

(** A failed call of conflict solving is the last call of the trace. *)
Fixpoint stops_at_failure {H} (t : list (Event H)) : bool :=
  match t with
  | [] => true
  | e :: t' =>
      if conflict_failure e
      then match t' with [] => true | _ => false end
      else stops_at_failure t'
  end.

(** ** Kinds of calls *)

(** The seeds handed to [srand], in order. *)
Definition srand_seeds {H} (t : list (Event H)) : list Z :=
  omap (fun e => match e with Srand x => Some x | _ => None end) t.

Definition heatmap_reset {H} (e : Event H) : bool :=
  match e with
  | Reset_integer_grid Heatmap_grid => true
  | _ => false
  end.

(** The calls [run_simulations] can make. *)
Definition run_event {H} (e : Event H) : bool :=
  match e with
  | Print_single_exit_marker | Srand _ | Print_double_grid
  | Insert_pedestrians_at_random _ _ | Print_pedestrian_position_grid _ _
  | Print_timestep_header _ | Evaluate_pedestrians_movements
  | Determine_pedestrians_in_panic | Block_X_movement
  | Identify_pedestrian_conflicts _ | Solve_pedestrian_conflicts _
  | Print_pedestrian_conflict_information | Free_pedestrian_conflicts
  | Apply_pedestrian_movement _ | Update_pedestrian_position_grid
  | Reset_pedestrian_state | Reset_pedestrian_panic | Sleep _
  | Reset_pedestrians_structures | Deallocate_pedestrians
  | Print_number_timesteps _ => true
  | _ => false
  end.

(** The calls of [run_simulations] made inside the timestep loop. *)
Definition timestep_event {H} (e : Event H) : bool :=
  match e with
  | Print_pedestrian_position_grid _ _
  | Print_timestep_header _ | Evaluate_pedestrians_movements
  | Determine_pedestrians_in_panic | Block_X_movement
  | Identify_pedestrian_conflicts _ | Solve_pedestrian_conflicts _
  | Print_pedestrian_conflict_information | Free_pedestrian_conflicts
  | Apply_pedestrian_movement _ | Update_pedestrian_position_grid
  | Reset_pedestrian_state | Reset_pedestrian_panic | Sleep _ => true
  | _ => false
  end.

(** ** What a pass of the main loop did *)

Definition inaccessible_reported {H} (e : Event H) : bool :=
  match e with
  | Calculate_final_floor_field INACCESSIBLE_EXIT => true
  | _ => false
  end.

Definition floor_field_computed {H} (e : Event H) : bool :=
  match e with
  | Calculate_final_floor_field SUCCESS => true
  | _ => false
  end.

Definition exits_released {H} (e : Event H) : bool :=
  match e with
  | Deallocate_exits => true
  | _ => false
  end.

(** The pass went on to the closing brace or to [break]. *)
Definition passed (c : Control) : bool :=
  match c with
  | Next_iteration | Leave_loop => true
  | _ => false
  end.

(** A reset of the heatmap is followed by [print_execution_status] and
    nothing else. *)
Fixpoint reset_closes_set {H} (t : list (Event H)) : bool :=
  match t with
  | [] => true
  | e :: t' =>
      if heatmap_reset e
      then match t' with [Print_execution_status _ _] => true | _ => false end
      else reset_closes_set t'
  end.


(** ** Scenarios in the scripted hall *)

(** Origin 0, two exit combinations in the auxiliary file, two runs of two
    pedestrians each. *)
Definition two_sets (format : Output_Format) : State Hall.Script :=
  Hall.start 0 format 2 2 (Hall.mkScript 0 2 false true).

(** The same, with a conflict solving that reports FAILURE. *)
Definition failing_conflicts : State Hall.Script :=
  Hall.start 0 OUTPUT_TIMESTEPS_COUNT 2 2 (Hall.mkScript 0 2 true true).

(** One exit combination from which part of the hall cannot be left, read
    from the auxiliary file (origin 0) or static (origin 1). *)
Definition unreachable_exit (origin : Z) : State Hall.Script :=
  Hall.start origin OUTPUT_TIMESTEPS_COUNT 2 2 (Hall.mkScript 0 1 false false).

(** The world a timestep leaves after conflict solving, after the apply
    phase, and at its end, when conflict solving does not fail. *)
Definition after_conflicts {H} `{TA : Timestep_Api H} (s : State H) : World H :=
  let a := cli_args s in
  let found := identify_pedestrian_conflicts a (world (before_conflicts s)) in
  snd (solve_pedestrian_conflicts (snd (fst found)) a (snd found)).

Definition after_apply {H} `{TA : Timestep_Api H} (s : State H) : World H :=
  apply_pedestrian_movement (cli_args s) (after_conflicts s).

Definition after_timestep {H} `{TA : Timestep_Api H} (s : State H) : World H :=
  let a := cli_args s in
  reset_pedestrian_panic a
    (reset_pedestrian_state a
       (update_pedestrian_position_grid a (after_apply s))).

(** The worlds recorded after the apply phases of a trace. *)
Definition applied_worlds {H} (t : list (Event H)) : list (World H) :=
  omap (fun e => match e with Apply_pedestrian_movement w => Some w | _ => None end) t.

(** ** The occupancy invariant of the automaton *)

Definition positions (w : World Core.Registry) : list Location :=
  map Core.position (Core.pedestrians (rest w)).

(** No two pedestrians share a cell, and the occupancy grid shows where they
    stand. *)
Definition occupancy_ok (a : Command_Line_Args) (w : World Core.Registry) : bool :=
  bool_decide (NoDup (positions w))
  && bool_decide
       (Core.pedestrian_position_grid (rest w) =
        Core.occupancy (global_line_number a) (global_column_number a)
          (Core.pedestrians (rest w))).

(** A proposal stays, or goes to a cell the occupancy grid shows free. *)
Definition stays_or_free (grid : Int_Grid) (p : Core.Pedestrian) : Prop :=
  Core.target p = Core.position p \/ Core.unoccupied grid (Core.target p) = true.

(** ** What a trace shows *)

(** The progress reports: set index and set quantity of every
    [print_execution_status]. *)
Definition status_lines {H} (t : list (Event H)) : list (Z * Z) :=
  omap (fun e => match e with
                 | Print_execution_status i q => Some (i, q)
                 | _ => None
                 end) t.

(** The grids printed for the visualization: run index and timestep. *)
Definition frames {H} (t : list (Event H)) : list (Z * Z) :=
  omap (fun e => match e with
                 | Print_pedestrian_position_grid i k => Some (i, k)
                 | _ => None
                 end) t.

Definition visualized (a : Command_Line_Args) : bool :=
  Output_Format_eqb (output_format a) OUTPUT_VISUALIZATION.

Definition sleeps {H} (t : list (Event H)) : list Z :=
  omap (fun e => match e with Sleep x => Some x | _ => None end) t.

(** The numbers printed by [fprintf(output_file, "%d ", number_timesteps)]. *)
Definition timestep_counts {H} (t : list (Event H)) : list Z :=
  omap (fun e => match e with Print_number_timesteps n => Some n | _ => None end) t.

(** The timesteps that reached their apply phase. *)
Definition timesteps_applied {H} (t : list (Event H)) : nat :=
  length (applied_worlds t).

Definition sum_Z (l : list Z) : Z := fold_right Z.add 0 l.

(** A collaborator called inside the loop of [main] returned FAILURE. *)
Definition reported_failure {H} (e : Event H) : bool :=
  match e with
  | Get_next_simulation_set FAILURE _
  | Calculate_final_floor_field FAILURE
  | Insert_pedestrians_at_random _ FAILURE
  | Identify_pedestrian_conflicts FAILURE
  | Solve_pedestrian_conflicts FAILURE => true
  | _ => false
  end.

Definition no_failure {H} (t : list (Event H)) : bool :=
  forallb (fun e => negb (reported_failure e)) t.

(** A reported failure is the last call of the trace. *)
Fixpoint failure_is_last {H} (t : list (Event H)) : bool :=
  match t with
  | [] => true
  | e :: t' =>
      if reported_failure e
      then match t' with [] => true | _ => false end
      else failure_is_last t'
  end.


(** The calls only [deallocate_program_structures] makes. *)
Definition closing_event {H} (e : Event H) : bool :=
  match e with
  | Fclose_files | Deallocate_grid _ => true
  | _ => false
  end.

Definition no_closing {H} (t : list (Event H)) : bool :=
  forallb (fun e => negb (closing_event e)) t.

(** [calculate_final_floor_field] returned something other than FAILURE. *)
Definition floor_field_passed {H} (e : Event H) : bool :=
  match e with
  | Calculate_final_floor_field FAILURE => false
  | Calculate_final_floor_field _ => true
  | _ => false
  end.


Definition fetched {H} (e : Event H) : bool :=
  match e with
  | Get_next_simulation_set _ _ => true
  | _ => false
  end.

(** How many calls of a kind a trace holds. *)
Definition count {H} (f : Event H -> bool) (t : list (Event H)) : nat :=
  length (List.filter f t).

Definition pedestrians_inserted {H} (e : Event H) : bool :=
  match e with
  | Insert_pedestrians_at_random _ _ => true
  | _ => false
  end.

Definition pedestrians_deallocated {H} (e : Event H) : bool :=
  match e with
  | Deallocate_pedestrians => true
  | _ => false
  end.

Definition pedestrians_reset {H} (e : Event H) : bool :=
  match e with
  | Reset_pedestrians_structures => true
  | _ => false
  end.

(** A failure reported during the initialisation. *)
Definition init_failure (e : Init_Event) : bool :=
  match e with
  | Argp_parse code => negb (code =? 0)
  | Open_auxiliary_file FAILURE _
  | Open_output_file FAILURE
  | Load_environment FAILURE
  | Generate_environment FAILURE => true
  | Extract_simulation_set_quantity q => q =? -1
  | _ => false
  end.

Definition no_init_failure (t : list Init_Event) : bool :=
  forallb (fun e => negb (init_failure e)) t.

Definition auxiliary_closed (e : Init_Event) : bool :=
  match e with
  | Fclose_auxiliary_file => true
  | _ => false
  end.

Definition auxiliary_opened_by (e : Init_Event) : bool :=
  match e with
  | Open_auxiliary_file _ opened => opened
  | _ => false
  end.

Definition output_failed (e : Init_Event) : bool :=
  match e with
  | Open_output_file FAILURE => true
  | _ => false
  end.

(** The set quantity the initialisation leaves: the one extracted from the
    auxiliary file, or the 1 of line 29. *)
Definition quantity_left (t : list Init_Event) : Z :=
  hd 1 (omap (fun e => match e with
                       | Extract_simulation_set_quantity q => Some q
                       | _ => None
                       end) t).

(** ** More scenarios in the scripted hall *)

(** One set of two runs shown as a visualization on the terminal. *)
Definition watched_hall : State Hall.Script :=
  mkState (mkWorld (mkRand 0 0) (mkExits_Set [] [] 1) [[0]]
             (Hall.mkScript 0 1 false true))
    (mkArgs 0 OUTPUT_VISUALIZATION false false false true false 1 1 2 2 7).


(** A desk at which everything succeeds: the origin reads an auxiliary file
    that announces two sets. *)
Definition open_desk : Desk.Plan :=
  Desk.mkPlan 0 0 SUCCESS true SUCCESS SUCCESS 2.

(** A desk at which the output file cannot be opened. *)
Definition no_output_desk : Desk.Plan :=
  Desk.mkPlan 0 0 SUCCESS true FAILURE SUCCESS 2.

(** ** The conflict arrays of a run *)

Definition conflicts_identified {H} (e : Event H) : bool :=
  match e with
  | Identify_pedestrian_conflicts _ => true
  | _ => false
  end.

Definition conflicts_freed {H} (e : Event H) : bool :=
  match e with
  | Free_pedestrian_conflicts => true
  | _ => false
  end.

(** Every conflict array identified was freed, but the one of a timestep
    whose conflict solving failed. *)
Definition conflicts_balanced {H} (t : list (Event H)) : Prop :=
  count conflicts_freed t = timesteps_applied t
  /\ count conflicts_identified t =
       (timesteps_applied t + (if quiet t then 0 else 1))%nat.

(** A call that is no part of conflict solving and no apply phase. *)
Definition outside_timestep {H} (e : Event H) : bool :=
  negb (conflicts_identified e) && negb (conflicts_freed e)
  && negb (conflict_failure e)
  && match e with Apply_pedestrian_movement _ => false | _ => true end.

(** * Properties *)

(** ** Running the monad *)

Ltac unfold_prog :=
  unfold when in *;
  unfold bind, ret, emit, call, call_ret, get_args, get_world,
    increment_seed, result_of, state_of, trace_of in *.

Ltac atomic x :=
  tryif is_constructor x then fail else
  lazymatch x with
  | context [if _ then _ else _] => fail
  | context [match _ with FAILURE => _ | SUCCESS => _
                        | INACCESSIBLE_EXIT => _ end] => fail
  | _ => idtac
  end.

Ltac split_step :=
  match goal with
  | |- context [Function_Status_eqb ?x _] =>
      atomic x; let E := fresh "E" in destruct x eqn:E
  | |- context [Output_Format_eqb ?x _] =>
      atomic x; let E := fresh "E" in destruct x eqn:E
  | |- context [match ?x with FAILURE => _ | SUCCESS => _
                            | INACCESSIBLE_EXIT => _ end] =>
      atomic x; let E := fresh "E" in destruct x eqn:E
  | |- context [negb ?b] =>
      atomic b; let E := fresh "E" in destruct b eqn:E
  | |- context [if ?b then _ else _] =>
      atomic b; let E := fresh "E" in destruct b eqn:E
  end.

Ltac run_prog := unfold_prog; simpl; repeat (split_step; simpl).

Section Driver_Facts.
Context {H : Type}.

Lemma quiet_app (t1 t2 : list (Event H)) :
  quiet (t1 ++ t2) = quiet t1 && quiet t2.
Proof. apply forallb_app. Qed.

Lemma stops_app_quiet (t1 t2 : list (Event H)) :
  quiet t1 = true -> stops_at_failure (t1 ++ t2) = stops_at_failure t2.
Proof.
  induction t1 as [|e t1 IH]; simpl; [reflexivity|].
  intros Hq. apply andb_prop in Hq as [He Hq].
  apply negb_true_iff in He. rewrite He. auto.
Qed.

Section Timestep_Facts.
Context `{TA : Timestep_Api H}.

Lemma timestep_args (i n : Z) (s : State H) :
  cli_args (state_of (timestep i n s)) = cli_args s.
Proof. unfold timestep, conflict_solving. run_prog; reflexivity. Qed.

Lemma timestep_trace (i n : Z) (s : State H) :
  phases (trace_of (timestep i n s)) =
    if Function_Status_eqb (result_of (timestep i n s)) FAILURE
    then phases_to_conflicts (cli_args s)
    else completed_phases (cli_args s).
Proof.
  unfold timestep, conflict_solving, completed_phases, listed_phases,
    phases_to_conflicts.
  run_prog; reflexivity.
Qed.

Lemma timestep_result (i n : Z) (s : State H) :
  result_of (timestep i n s) =
    if Function_Status_eqb (result_of (conflict_solving (before_conflicts s)))
         FAILURE
    then FAILURE else SUCCESS.
Proof.
  unfold timestep, conflict_solving, before_conflicts.
  run_prog; first [reflexivity | congruence].
Qed.

Lemma timestep_stops (i n : Z) (s : State H) :
  stops_at_failure (trace_of (timestep i n s)) = true.
Proof. unfold timestep, conflict_solving. run_prog; reflexivity. Qed.

Lemma timestep_quiet (i n : Z) (s : State H) :
  quiet (trace_of (timestep i n s)) =
    negb (Function_Status_eqb (result_of (timestep i n s)) FAILURE).
Proof. unfold timestep, conflict_solving. run_prog; reflexivity. Qed.

Lemma timestep_events (i n : Z) (s : State H) :
  forallb timestep_event (trace_of (timestep i n s)) = true.
Proof. unfold timestep, conflict_solving. run_prog; reflexivity. Qed.

End Timestep_Facts.

Section Run_Facts.
Context `{TA : Timestep_Api H} `{RA : Run_Api H}.

Lemma timestep_loop_empty (fuel : nat) (i n : Z) (s : State H) :
  is_environment_empty (cli_args s) (world s) = true ->
  timestep_loop fuel i n s = (Finished (SUCCESS, n), s, []).
Proof.
  intros E. destruct fuel; simpl; unfold_prog; simpl; rewrite E; reflexivity.
Qed.

Lemma timestep_loop_stop (i n : Z) (s : State H) :
  is_environment_empty (cli_args s) (world s) = false ->
  timestep_loop 0 i n s = (Out_of_fuel, s, []).
Proof. intros E. simpl. unfold_prog. simpl. rewrite E. reflexivity. Qed.

Lemma timestep_loop_step (fuel : nat) (i n : Z) (s : State H) :
  is_environment_empty (cli_args s) (world s) = false ->
  timestep_loop (S fuel) i n s =
    let x := timestep i n s in
    if Function_Status_eqb (result_of x) FAILURE
    then (Finished (FAILURE, n), state_of x, trace_of x)
    else
      let y := timestep_loop fuel i (n + 1) (state_of x) in
      (result_of y, state_of y, trace_of x ++ trace_of y).
Proof.
  intros E. cbn [timestep_loop]. unfold bind at 1 2.
  unfold get_args, get_world. cbn [result_of state_of trace_of fst snd].
  rewrite E. unfold bind at 1.
  destruct (timestep i n s) as [[r s1] t1].
  cbn [result_of state_of trace_of fst snd].
  destruct (Function_Status_eqb r FAILURE).
  - unfold ret. cbn. rewrite app_nil_r. reflexivity.
  - destruct (timestep_loop fuel i (n + 1) s1) as [[c s2] t2]. reflexivity.
Qed.

Lemma timestep_loop_args (fuel : nat) (i n : Z) (s : State H) :
  cli_args (state_of (timestep_loop fuel i n s)) = cli_args s.
Proof.
  revert n s. induction fuel as [|fuel IH]; intros n s;
    destruct (is_environment_empty (cli_args s) (world s)) eqn:E.
  - rewrite timestep_loop_empty by assumption. reflexivity.
  - rewrite timestep_loop_stop by assumption. reflexivity.
  - rewrite timestep_loop_empty by assumption. reflexivity.
  - rewrite timestep_loop_step by assumption. cbv zeta.
    destruct (Function_Status_eqb _ _).
    + apply timestep_args.
    + cbn [state_of fst snd]. rewrite IH. apply timestep_args.
Qed.

Lemma phases_app (t1 t2 : list (Event H)) :
  phases (t1 ++ t2) = phases t1 ++ phases t2.
Proof. apply omap_app. Qed.

(** C5, as the code has it: a timestep goes through evaluate, panic, the
    optional blocking and conflict solving; when conflict solving fails it
    ends there, and the run with it; otherwise it continues with apply, the
    grid update, the reset of the transient state and the reset of the panic
    state.  Every timestep of the loop but a failing last one is complete. *)
Theorem timestep_phase_order (fuel : nat) (i n : Z) (s : State H) :
  (phases (trace_of (timestep i n s)) =
     if Function_Status_eqb (result_of (timestep i n s)) FAILURE
     then phases_to_conflicts (cli_args s)
     else completed_phases (cli_args s))
  /\ (result_of (timestep i n s) =
       if Function_Status_eqb
            (result_of (conflict_solving (before_conflicts s))) FAILURE
       then FAILURE else SUCCESS)
  /\ exists k : nat,
       phases (trace_of (timestep_loop fuel i n s)) =
         concat (replicate k (completed_phases (cli_args s)))
         ++ match result_of (timestep_loop fuel i n s) with
            | Finished (FAILURE, _) => phases_to_conflicts (cli_args s)
            | _ => []
            end.
Proof.
  split; [apply timestep_trace|]. split; [apply timestep_result|].
  revert n s. induction fuel as [|fuel IH]; intros n s;
    destruct (is_environment_empty (cli_args s) (world s)) eqn:E.
  - exists 0%nat. rewrite timestep_loop_empty by assumption. reflexivity.
  - exists 0%nat. rewrite timestep_loop_stop by assumption. reflexivity.
  - exists 0%nat. rewrite timestep_loop_empty by assumption. reflexivity.
  - rewrite timestep_loop_step by assumption. cbv zeta.
    pose proof (timestep_trace i n s) as Ht.
    destruct (Function_Status_eqb (result_of (timestep i n s)) FAILURE).
    + exists 0%nat. exact Ht.
    + destruct (IH (n + 1) (state_of (timestep i n s))) as [k Hk].
      exists (S k). cbn [trace_of result_of fst snd] in *.
      rewrite phases_app, Ht, Hk, timestep_args.
      cbn [replicate concat]. rewrite <- app_assoc. reflexivity.
Qed.

(** A failed conflict solving ends the timestep loop, with FAILURE. *)
Lemma timestep_loop_failure (fuel : nat) (i n : Z) (s : State H) :
  stops_at_failure (trace_of (timestep_loop fuel i n s)) = true
  /\ (quiet (trace_of (timestep_loop fuel i n s)) = false ->
      exists m, result_of (timestep_loop fuel i n s) = Finished (FAILURE, m)).
Proof.
  revert n s. induction fuel as [|fuel IH]; intros n s;
    destruct (is_environment_empty (cli_args s) (world s)) eqn:E.
  - rewrite timestep_loop_empty by assumption. split; [reflexivity|discriminate].
  - rewrite timestep_loop_stop by assumption. split; [reflexivity|discriminate].
  - rewrite timestep_loop_empty by assumption. split; [reflexivity|discriminate].
  - rewrite timestep_loop_step by assumption. cbv zeta.
    pose proof (timestep_quiet i n s) as Hq.
    destruct (Function_Status_eqb (result_of (timestep i n s)) FAILURE) eqn:Ef.
    + cbn [trace_of result_of fst snd]. split; [apply timestep_stops|eauto].
    + destruct (IH (n + 1) (state_of (timestep i n s))) as [IH1 IH2].
      cbn [trace_of result_of fst snd] in *.
      rewrite stops_app_quiet, quiet_app, Hq by assumption.
      split; assumption.
Qed.

Lemma timestep_loop_events (fuel : nat) (i n : Z) (s : State H) :
  forallb timestep_event (trace_of (timestep_loop fuel i n s)) = true.
Proof.
  revert n s. induction fuel as [|fuel IH]; intros n s;
    destruct (is_environment_empty (cli_args s) (world s)) eqn:E.
  - rewrite timestep_loop_empty by assumption. reflexivity.
  - rewrite timestep_loop_stop by assumption. reflexivity.
  - rewrite timestep_loop_empty by assumption. reflexivity.
  - rewrite timestep_loop_step by assumption. cbv zeta.
    destruct (Function_Status_eqb _ _); cbn [trace_of snd].
    + apply timestep_events.
    + rewrite forallb_app, timestep_events. apply IH.
Qed.

Lemma timestep_events_no_srand (t : list (Event H)) :
  forallb timestep_event t = true -> srand_seeds t = [].
Proof.
  induction t as [|e t IH]; [reflexivity|]. simpl.
  intros [He Ht]%andb_prop. destruct e; try discriminate; simpl; auto.
Qed.

Lemma timestep_events_run (t : list (Event H)) :
  forallb timestep_event t = true -> forallb run_event t = true.
Proof.
  induction t as [|e t IH]; [reflexivity|]. simpl.
  intros [He Ht]%andb_prop. rewrite IH by assumption.
  destruct e; try discriminate; reflexivity.
Qed.

Lemma run_events_no_reset (t : list (Event H)) :
  forallb run_event t = true -> existsb heatmap_reset t = false.
Proof.
  induction t as [|e t IH]; [reflexivity|]. simpl.
  intros [He Ht]%andb_prop. rewrite IH by assumption.
  destruct e; try discriminate; reflexivity.
Qed.

Lemma srand_seeds_app (t1 t2 : list (Event H)) :
  srand_seeds (t1 ++ t2) = srand_seeds t1 ++ srand_seeds t2.
Proof. apply omap_app. Qed.

(** Facts about the timestep loop inside a run, brought in when the loop is
    met: where a failure leaves it, what it calls, what it leaves of
    [cli_args]. *)
Ltac meet_loop :=
  match goal with
  | |- context [timestep_loop ?f ?i ?n ?st] =>
      let HF := fresh "HF" in
      let HE := fresh "HE" in
      let HA := fresh "HA" in
      destruct (timestep_loop_failure f i n st) as [HS HF];
      pose proof (timestep_loop_events f i n st) as HE;
      pose proof (timestep_loop_args f i n st) as HA;
      destruct (timestep_loop f i n st) as [[[[[] ?]|] ?] ?];
      cbn [result_of state_of trace_of fst snd] in HS, HF, HE, HA
  end.

Lemma simulation_run_failure (fuel : nat) (i : Z) (s : State H) :
  stops_at_failure (trace_of (simulation_run fuel i s)) = true
  /\ (quiet (trace_of (simulation_run fuel i s)) = false ->
      result_of (simulation_run fuel i s) = Finished FAILURE).
Proof.
  unfold simulation_run. run_prog; try (split; [reflexivity|discriminate]).
  all: meet_loop; run_prog.
  all: rewrite ?app_nil_r, ?quiet_app;
    cbn [quiet forallb conflict_failure negb andb]; rewrite ?andb_true_r.
  all: split;
    [ try assumption
    | try reflexivity; try discriminate;
      try (intros Hq; destruct (HF Hq); discriminate) ].
  all: destruct (quiet l) eqn:Hq;
    [ rewrite stops_app_quiet by assumption; reflexivity
    | destruct (HF eq_refl); discriminate ].
Qed.

Lemma simulation_run_events (fuel : nat) (i : Z) (s : State H) :
  forallb run_event (trace_of (simulation_run fuel i s)) = true.
Proof.
  unfold simulation_run. run_prog; try reflexivity.
  all: meet_loop; run_prog.
  all: rewrite ?forallb_app, (timestep_events_run _ HE); reflexivity.
Qed.

(** A run calls [srand] once, with the seed it finds, and leaves the seed
    one higher when it completes. *)
Lemma simulation_run_seed (fuel : nat) (i : Z) (s : State H) :
  srand_seeds (trace_of (simulation_run fuel i s)) = [seed (cli_args s)]
  /\ cli_args (state_of (simulation_run fuel i s)) =
       match result_of (simulation_run fuel i s) with
       | Finished SUCCESS => set_seed (cli_args s) (seed (cli_args s) + 1)
       | _ => cli_args s
       end.
Proof.
  unfold simulation_run. run_prog; try (split; reflexivity).
  all: meet_loop; run_prog.
  all: rewrite ?srand_seeds_app, (timestep_events_no_srand _ HE), HA.
  all: split; reflexivity.
Qed.

Lemma simulation_run_result (fuel : nat) (i : Z) (s : State H) :
  result_of (simulation_run fuel i s) <> Finished INACCESSIBLE_EXIT.
Proof.
  unfold simulation_run. run_prog; try discriminate.
  all: meet_loop; run_prog; discriminate.
Qed.

Lemma simulation_runs_step (fuel remaining : nat) (i : Z) (s : State H) :
  simulation_runs fuel (S remaining) i s =
    let x := simulation_run fuel i s in
    match result_of x with
    | Finished SUCCESS =>
        let y := simulation_runs fuel remaining (i + 1) (state_of x) in
        (result_of y, state_of y, trace_of x ++ trace_of y)
    | other => (other, state_of x, trace_of x)
    end.
Proof.
  cbn [simulation_runs]. unfold bind at 1.
  destruct (simulation_run fuel i s) as [[[[]|] s1] t1];
    cbn [result_of state_of trace_of fst snd]; unfold ret;
    rewrite ?app_nil_r; try reflexivity.
  destruct (simulation_runs fuel remaining (i + 1) s1) as [[c s2] t2].
  reflexivity.
Qed.

Lemma simulation_runs_failure (fuel remaining : nat) (i : Z) (s : State H) :
  stops_at_failure (trace_of (simulation_runs fuel remaining i s)) = true
  /\ (quiet (trace_of (simulation_runs fuel remaining i s)) = false ->
      result_of (simulation_runs fuel remaining i s) = Finished FAILURE).
Proof.
  revert i s. induction remaining as [|remaining IH]; intros i s.
  - split; [reflexivity|discriminate].
  - rewrite simulation_runs_step. cbv zeta.
    destruct (simulation_run_failure fuel i s) as [Hs Hq].
    destruct (result_of (simulation_run fuel i s)) as [[]|] eqn:Er;
      cbn [result_of state_of trace_of fst snd];
      try (split; [assumption|intros Hn; specialize (Hq Hn); congruence]).
    destruct (IH (i + 1) (state_of (simulation_run fuel i s))) as [IH1 IH2].
    destruct (quiet (trace_of (simulation_run fuel i s))) eqn:Hqt.
    + rewrite stops_app_quiet, quiet_app, Hqt by assumption. split; assumption.
    + specialize (Hq eq_refl). discriminate.
Qed.

Lemma simulation_runs_events (fuel remaining : nat) (i : Z) (s : State H) :
  forallb run_event (trace_of (simulation_runs fuel remaining i s)) = true.
Proof.
  revert i s. induction remaining as [|remaining IH]; intros i s;
    [reflexivity|].
  rewrite simulation_runs_step. cbv zeta.
  pose proof (simulation_run_events fuel i s) as He.
  destruct (result_of (simulation_run fuel i s)) as [[]|];
    cbn [trace_of snd]; try assumption.
  rewrite forallb_app, He. apply IH.
Qed.

Lemma simulation_runs_result (fuel remaining : nat) (i : Z) (s : State H) :
  result_of (simulation_runs fuel remaining i s) <> Finished INACCESSIBLE_EXIT.
Proof.
  revert i s. induction remaining as [|remaining IH]; intros i s;
    [discriminate|].
  rewrite simulation_runs_step. cbv zeta.
  pose proof (simulation_run_result fuel i s) as Hr.
  destruct (result_of (simulation_run fuel i s)) as [[]|];
    cbn [result_of fst]; first [congruence | apply IH].
Qed.

Lemma set_seed_same (a : Command_Line_Args) : set_seed a (seed a + Z.of_nat 0) = a.
Proof. destruct a. unfold set_seed. simpl. f_equal. lia. Qed.

Lemma set_seed_twice (a : Command_Line_Args) (k : nat) :
  set_seed (set_seed a (seed a + 1)) (seed (set_seed a (seed a + 1)) + Z.of_nat k)
  = set_seed a (seed a + Z.of_nat (S k)).
Proof. unfold set_seed. simpl. f_equal. lia. Qed.

(** The runs of a set are seeded with consecutive values, from the seed
    found on entry. *)
Lemma simulation_runs_seeds (fuel remaining : nat) (i : Z) (s : State H) :
  exists k : nat,
    (k <= remaining)%nat
    /\ srand_seeds (trace_of (simulation_runs fuel remaining i s)) =
         seqZ (seed (cli_args s)) (Z.of_nat k)
    /\ (result_of (simulation_runs fuel remaining i s) = Finished SUCCESS ->
        k = remaining
        /\ cli_args (state_of (simulation_runs fuel remaining i s)) =
             set_seed (cli_args s) (seed (cli_args s) + Z.of_nat remaining)).
Proof.
  revert i s. induction remaining as [|remaining IH]; intros i s.
  - exists 0%nat. cbn. rewrite set_seed_same. auto.
  - rewrite simulation_runs_step. cbv zeta.
    destruct (simulation_run_seed fuel i s) as [Hs Ha].
    destruct (result_of (simulation_run fuel i s)) as [[]|] eqn:Er;
      cbn [result_of state_of trace_of fst snd];
      try (exists 1%nat; split; [lia|]; split; [exact Hs|discriminate]).
    destruct (IH (i + 1) (state_of (simulation_run fuel i s)))
      as (k & Hk & Hseeds & Hdone).
    exists (S k). split; [lia|]. split.
    + rewrite srand_seeds_app, Hs, Hseeds, Ha. cbn [seed set_seed].
      rewrite (seqZ_cons (seed (cli_args s))) by lia.
      cbn [app]. do 2 f_equal; lia.
    + intros Hr. destruct (Hdone Hr) as [-> Hargs]. split; [reflexivity|].
      rewrite Hargs, Ha. apply set_seed_twice.
Qed.

Lemma run_simulations_eq (fuel : nat) (s : State H) :
  run_simulations fuel s =
    let y := simulation_runs fuel (Z.to_nat (num_simulations (cli_args s))) 0 s in
    (result_of y, state_of y,
     (if single_exit_flag (cli_args s)
         && Output_Format_eqb (output_format (cli_args s)) OUTPUT_TIMESTEPS_COUNT
         && (num_exits (exits_set (world s)) =? 1)
      then [Print_single_exit_marker] else [])
     ++ trace_of y).
Proof.
  unfold run_simulations. unfold_prog. cbn [fst snd].
  destruct (_ && _ && _); cbn [fst snd app];
    destruct (simulation_runs _ _ _ _) as [[c s2] t2]; reflexivity.
Qed.

(** What main needs to know about [run_simulations]. *)
Lemma run_simulations_facts (fuel : nat) (s : State H) :
  let x := run_simulations fuel s in
  (stops_at_failure (trace_of x) = true
   /\ (quiet (trace_of x) = false -> result_of x = Finished FAILURE))
  /\ forallb run_event (trace_of x) = true
  /\ result_of x <> Finished INACCESSIBLE_EXIT
  /\ exists k : nat,
       (k <= Z.to_nat (num_simulations (cli_args s)))%nat
       /\ srand_seeds (trace_of x) = seqZ (seed (cli_args s)) (Z.of_nat k)
       /\ (result_of x = Finished SUCCESS ->
           k = Z.to_nat (num_simulations (cli_args s))
           /\ cli_args (state_of x) =
                set_seed (cli_args s)
                  (seed (cli_args s)
                   + Z.of_nat (Z.to_nat (num_simulations (cli_args s))))).
Proof.
  cbv zeta. rewrite run_simulations_eq. cbv zeta.
  set (n := Z.to_nat (num_simulations (cli_args s))).
  destruct (simulation_runs_failure fuel n 0 s) as [Hs Hq].
  pose proof (simulation_runs_events fuel n 0 s) as He.
  pose proof (simulation_runs_result fuel n 0 s) as Hr.
  destruct (simulation_runs_seeds fuel n 0 s) as (k & Hk & Hseeds & Hdone).
  cbn [result_of state_of trace_of fst snd] in *.
  destruct (_ && _ && _); cbn [app];
    (split; [split; [exact Hs|exact Hq]|]);
    (split; [exact He|]); (split; [exact Hr|]);
    exists k; auto.
Qed.




End Run_Facts.
Section Set_Facts.
Context `{TA : Timestep_Api H} `{RA : Run_Api H} `{SA : Set_Api H}.

Lemma main_loop_step (sets fuel : nat) (q : Z) (l : Locals) (s : State H) :
  main_loop (S sets) fuel q l s =
    let x := main_iteration fuel q l s in
    match fst (result_of x) with
    | Next_iteration =>
        let y := main_loop sets fuel q (snd (result_of x)) (state_of x) in
        (result_of y, state_of y, trace_of x ++ trace_of y)
    | Leave_loop =>
        let y := deallocate_program_structures (state_of x) in
        (Finished Returned_at_end, state_of y, trace_of x ++ trace_of y)
    | Return_END_PROGRAM => (Finished Returned_inside_loop, state_of x, trace_of x)
    | Run_out_of_fuel => (Out_of_fuel, state_of x, trace_of x)
    end.
Proof.
  cbn [main_loop]. unfold bind at 1.
  destruct (main_iteration fuel q l s) as [[[[] l'] s1] t1];
    cbn [result_of state_of trace_of fst snd]; unfold ret;
    rewrite ?app_nil_r; try reflexivity.
  destruct (main_loop sets fuel q l' s1) as [[c s2] t2]. reflexivity.
Qed.

Lemma run_events_quiet_kinds (t : list (Event H)) :
  forallb run_event t = true ->
  existsb inaccessible_reported t = false
  /\ existsb floor_field_computed t = false
  /\ existsb exits_released t = false
  /\ existsb heatmap_reset t = false.
Proof.
  induction t as [|e t IH]; [auto|]. cbn [forallb existsb].
  intros [He Ht]%andb_prop. destruct (IH Ht) as (-> & -> & -> & ->).
  destruct e; try discriminate; auto.
Qed.

Lemma reset_closes_app (t1 t2 : list (Event H)) :
  existsb heatmap_reset t1 = false ->
  reset_closes_set (t1 ++ t2) = reset_closes_set t2.
Proof.
  induction t1 as [|e t1 IH]; [reflexivity|]. cbn [existsb app reset_closes_set].
  intros [-> Ht]%orb_false_elim. auto.
Qed.

(** Facts about [run_simulations], brought in where a pass calls it. *)
Ltac meet_runs :=
  match goal with
  | |- context [run_simulations ?f ?st] =>
      destruct (run_simulations_facts f st)
        as ((HS & HF) & HE & HR & (k & Hk & Hseeds & Hdone));
      destruct (run_events_quiet_kinds _ HE) as (HI & HC & HX & HM);
      destruct (run_simulations f st) as [[[[]|] ?] T];
      cbn [result_of state_of trace_of fst snd] in *;
      try congruence
  end.

Lemma main_iteration_failure (fuel : nat) (q : Z) (l : Locals) (s : State H) :
  let x := main_iteration fuel q l s in
  stops_at_failure (trace_of x) = true
  /\ (quiet (trace_of x) = false -> fst (result_of x) = Return_END_PROGRAM).
Proof.
  cbv zeta. unfold main_iteration, after_floor_field.
  run_prog; try (split; [reflexivity|discriminate]).
  all: meet_runs; run_prog.
  all: rewrite ?app_nil_r, ?quiet_app;
    cbn [quiet forallb conflict_failure negb andb]; rewrite ?andb_true_r.
  all: split;
    [ try assumption
    | try reflexivity; try discriminate;
      try (intros Hq; specialize (HF Hq); discriminate) ].
  all: destruct (quiet T) eqn:Hq;
    [ rewrite stops_app_quiet by assumption; reflexivity
    | specialize (HF eq_refl); discriminate ].
Qed.

(** A pass seeds its runs with consecutive values, and hands the next pass
    the seed that follows them. *)
Lemma main_iteration_seeds (fuel : nat) (q : Z) (l : Locals) (s : State H) :
  let x := main_iteration fuel q l s in
  exists k : nat,
    srand_seeds (trace_of x) = seqZ (seed (cli_args s)) (Z.of_nat k)
    /\ (fst (result_of x) = Next_iteration ->
        cli_args (state_of x) =
          set_seed (cli_args s) (seed (cli_args s) + Z.of_nat k)).
Proof.
  cbv zeta. unfold main_iteration, after_floor_field.
  run_prog;
    try (exists 0%nat; rewrite set_seed_same; split; [reflexivity|];
         first [reflexivity | discriminate]).
  all: meet_runs; run_prog.
  all: exists k; rewrite ?srand_seeds_app, ?Hseeds; cbn [srand_seeds omap];
    rewrite ?app_nil_r; (split; [reflexivity|]); try discriminate.
  all: intros _; destruct (Hdone eq_refl) as [-> ->]; reflexivity.
Qed.

(** The heatmap is reset by a pass exactly when the output is the heatmap and
    the runs of the set completed, and then as the last thing before the
    execution status. *)
Lemma main_iteration_heatmap (fuel : nat) (q : Z) (l : Locals) (s : State H) :
  let x := main_iteration fuel q l s in
  reset_closes_set (trace_of x) = true
  /\ existsb heatmap_reset (trace_of x) =
       Output_Format_eqb (output_format (cli_args s)) OUTPUT_HEATMAP
       && existsb floor_field_computed (trace_of x)
       && passed (fst (result_of x)).
Proof.
  cbv zeta. unfold main_iteration, after_floor_field.
  run_prog; try (split; reflexivity).
  all: meet_runs; run_prog.
  all: rewrite ?existsb_app, ?HM, ?HC, ?reset_closes_app by assumption.
  all: split; reflexivity.
Qed.


Lemma main_loop_failure (sets fuel : nat) (q : Z) (l : Locals) (s : State H) :
  let x := main_loop sets fuel q l s in
  stops_at_failure (trace_of x) = true
  /\ (quiet (trace_of x) = false -> result_of x = Finished Returned_inside_loop).
Proof.
  cbv zeta. revert l s. induction sets as [|sets IH]; intros l s.
  - split; [reflexivity|discriminate].
  - rewrite main_loop_step. cbv zeta.
    destruct (main_iteration_failure fuel q l s) as [Hs Hq].
    destruct (quiet (trace_of (main_iteration fuel q l s))) eqn:Hqt.
    + destruct (fst (result_of (main_iteration fuel q l s)));
        cbn [result_of state_of trace_of fst snd];
        rewrite ?stops_app_quiet, ?quiet_app, ?Hqt by assumption.
      * apply IH.
      * split; [reflexivity|discriminate].
      * split; [assumption|reflexivity].
      * split; [assumption|discriminate].
    + rewrite (Hq eq_refl). cbn [result_of state_of trace_of fst snd].
      split; [assumption|reflexivity].
Qed.




(** C7, as the code has it: a failure of conflict solving is the last call
    the process makes; [main] returns from inside the loop, no further
    timestep, run or simulation set is executed. *)
Theorem conflict_failure_ends_process (sets fuel : nat) (q : Z) (s : State H) :
  let x := main sets fuel q s in
  stops_at_failure (trace_of x) = true
  /\ (quiet (trace_of x) = false -> result_of x = Finished Returned_inside_loop).
Proof. apply main_loop_failure. Qed.

(** C9, as the code has it: [run_simulations] never resets the heatmap; a
    pass of the main loop resets it exactly when the output format is
    OUTPUT_HEATMAP and the runs of the set completed, as its last call before
    the execution status. *)
Theorem heatmap_reset_policy (fuel : nat) (q : Z) (l : Locals) (s : State H) :
  existsb heatmap_reset (trace_of (run_simulations fuel s)) = false
  /\ reset_closes_set (trace_of (main_iteration fuel q l s)) = true
  /\ existsb heatmap_reset (trace_of (main_iteration fuel q l s)) =
       Output_Format_eqb (output_format (cli_args s)) OUTPUT_HEATMAP
       && existsb floor_field_computed (trace_of (main_iteration fuel q l s))
       && passed (fst (result_of (main_iteration fuel q l s))).
Proof.
  split; [|apply main_iteration_heatmap].
  destruct (run_simulations_facts fuel s) as (_ & He & _).
  apply run_events_no_reset, He.
Qed.


End Set_Facts.
End Driver_Facts.

(** ** The scenarios, run *)

Section Hall_Runs.
#[local] Existing Instance Hall.timestep_api.
#[local] Existing Instance Hall.run_api.
#[local] Existing Instance Hall.set_api.



(** With static exits the pass also ends with [continue], past the [break]
    that closes the single set of such an origin: the state is left as it
    was found, so every later pass meets INACCESSIBLE_EXIT again and [main]
    does not return. *)
Lemma static_unreachable_exit_never_ends (sets fuel : nat) (i : Z) :
  result_of (main_loop sets fuel 1 (mkLocals i 0) (unreachable_exit 1))
  = Out_of_fuel.
Proof.
  revert i. induction sets as [|sets IH]; intros i; [reflexivity|].
  rewrite main_loop_step. cbv zeta.
  assert (E : main_iteration fuel 1 (mkLocals i 0) (unreachable_exit 1) =
              (Next_iteration, mkLocals (i + 1) 0, unreachable_exit 1,
               [Calculate_final_floor_field INACCESSIBLE_EXIT;
                Print_placeholder (-1); Print_execution_status i 1]))
    by reflexivity.
  rewrite E. cbn [result_of state_of trace_of fst snd]. apply IH.
Qed.

(** C5 fails as stated: a timestep whose conflict solving fails goes
    through three of the phases only. *)
Lemma failed_conflicts_skip_phases :
  phases (trace_of (run_simulations 5 failing_conflicts)) =
    [Evaluate_movements; Determine_panic; Conflict_solving]
  /\ listed_phases (cli_args failing_conflicts) =
       [Evaluate_movements; Determine_panic; Conflict_solving;
        Apply_movement; Update_grids; Reset_transient_state].
Proof. split; reflexivity. Qed.

(** C7 fails as stated: of two sets of two runs each, only the first run of
    the first set is started when its conflict solving fails. *)
Lemma failed_conflicts_end_all_sets :
  let x := main 5 5 2 failing_conflicts in
  result_of x = Finished Returned_inside_loop
  /\ srand_seeds (trace_of x) = [7]
  /\ length (filter (fun e => Is_true (floor_field_computed e)) (trace_of x)) = 1%nat
  /\ last (trace_of x) = Some (Solve_pedestrian_conflicts FAILURE)
  /\ num_simulations (cli_args failing_conflicts) = 2
  /\ Hall.pending_sets (rest (world failing_conflicts)) = 2%nat.
Proof. repeat split; reflexivity. Qed.

(** C9 fails as stated: when the output is not the heatmap, two sets run to
    their end without any reset of the heatmap, which keeps counting. *)
Lemma heatmap_kept_between_sets :
  let x := main 5 5 2 (two_sets OUTPUT_TIMESTEPS_COUNT) in
  result_of x = Finished Returned_at_end
  /\ srand_seeds (trace_of x) = [7; 8; 9; 10]
  /\ existsb heatmap_reset (trace_of x) = false
  /\ heatmap_grid (world (state_of x)) = [[4]].
Proof. repeat split; reflexivity. Qed.

(** With the heatmap as output the grid is cleared after each set. *)
Lemma heatmap_cleared_after_set :
  let x := main 5 5 2 (two_sets OUTPUT_HEATMAP) in
  result_of x = Finished Returned_at_end
  /\ length (filter (fun e => Is_true (heatmap_reset e)) (trace_of x)) = 2%nat
  /\ heatmap_grid (world (state_of x)) = [[0]].
Proof. repeat split; reflexivity. Qed.


End Hall_Runs.

(** ** A timestep that completes *)

Section Completed_Timestep.
Context {H : Type} `{TA : Timestep_Api H}.

(** A timestep whose conflict solving does not fail leaves the world that
    the phases produce in their order, and records the world after apply. *)
Lemma timestep_completed (i n : Z) (s : State H) :
  result_of (timestep i n s) <> FAILURE ->
  world (state_of (timestep i n s)) = after_timestep s
  /\ applied_worlds (trace_of (timestep i n s)) = [after_apply s].
Proof.
  unfold after_timestep, after_apply, after_conflicts, before_conflicts.
  unfold timestep, conflict_solving. run_prog; try congruence.
  all: intros _; split; reflexivity.
Qed.

End Completed_Timestep.


(** ** The combined floor field *)

Section Floor_Field_Facts.
Import Core.

(** ** The order on field values *)

Lemma weight_leb_le (a b : Weight) : weight_leb a b = true <-> weight_le a b.
Proof.
  destruct a, b; simpl; try tauto; try (split; [discriminate|tauto]).
  apply Qle_bool_iff.
Qed.

Lemma weight_le_refl (a : Weight) : weight_le a a.
Proof. destruct a; simpl; [apply Qle_refl|exact I]. Qed.

Lemma weight_le_trans (a b c : Weight) :
  weight_le a b -> weight_le b c -> weight_le a c.
Proof.
  destruct a, b, c; simpl; try tauto. apply Qle_trans.
Qed.

Lemma weight_le_total (a b : Weight) : weight_le a b \/ weight_le b a.
Proof.
  destruct a as [x|], b as [y|]; simpl; auto.
  destruct (Qlt_le_dec x y) as [Hlt|Hle]; [left; apply Qlt_le_weak, Hlt|auto].
Qed.

Lemma weight_min_le_stored (a b : Weight) : weight_le (weight_min a b) a.
Proof.
  unfold weight_min. destruct (weight_leb a b) eqn:E.
  - apply weight_le_refl.
  - destruct (weight_le_total a b) as [Hab|Hba]; [|assumption].
    apply weight_leb_le in Hab. congruence.
Qed.

Lemma weight_min_le_new (a b : Weight) : weight_le (weight_min a b) b.
Proof.
  unfold weight_min. destruct (weight_leb a b) eqn:E.
  - apply weight_leb_le, E.
  - apply weight_le_refl.
Qed.

Lemma weight_min_cases (a b : Weight) : weight_min a b = a \/ weight_min a b = b.
Proof. unfold weight_min. destruct (weight_leb a b); auto. Qed.

(** ** Grids *)

Lemma has_dimensions_cell {A} (lines columns : nat) (g : list (list A)) (i j : nat) :
  has_dimensions lines columns g = true ->
  (i < lines)%nat -> (j < columns)%nat -> is_Some (cell g i j).
Proof.
  unfold has_dimensions, cell. intros [Hl Hr]%andb_prop Hi Hj.
  apply Nat.eqb_eq in Hl. rewrite forallb_forall in Hr.
  destruct (lookup_lt_is_Some_2 g i) as [row Hrow]; [lia|]. rewrite Hrow.
  apply lookup_lt_is_Some_2.
  assert (Hin : In row g) by (apply list_elem_of_In, list_elem_of_lookup; eauto).
  specialize (Hr row Hin). apply Nat.eqb_eq in Hr. lia.
Qed.

Lemma cell_merge_field (stored f : list (list Weight)) (i j : nat) :
  cell (merge_field stored f) i j =
    match cell stored i j, cell f i j with
    | Some a, Some b => Some (weight_min a b)
    | _, _ => None
    end.
Proof.
  unfold cell, merge_field. rewrite lookup_zip_with.
  destruct (stored !! i) as [r1|]; simpl; [|reflexivity].
  destruct (f !! i) as [r2|]; simpl.
  - rewrite lookup_zip_with. destruct (r1 !! j), (r2 !! j); reflexivity.
  - destruct (r1 !! j); reflexivity.
Qed.

Lemma cell_constant_grid {A} (lines columns : nat) (v : A) (i j : nat) :
  (i < lines)%nat -> (j < columns)%nat ->
  cell (constant_grid lines columns v) i j = Some v.
Proof.
  intros Hi Hj. unfold cell, constant_grid.
  rewrite lookup_replicate_2 by assumption. apply lookup_replicate_2, Hj.
Qed.

(** The combined value of a cell is below the value the cell started with and
    below every exit's value, and it is one of them. *)
Lemma cell_fold_merge (exits : list Exit) (acc : list (list Weight)) (i j : nat)
    (a : Weight) :
  cell acc i j = Some a ->
  Forall (fun e => is_Some (cell (floor_field e) i j)) exits ->
  exists v,
    cell (fold_left (fun stored e => merge_field stored (floor_field e)) exits acc)
      i j = Some v
    /\ weight_le v a
    /\ Forall (fun e => forall u, cell (floor_field e) i j = Some u -> weight_le v u)
         exits
    /\ (v = a \/ Exists (fun e => cell (floor_field e) i j = Some v) exits).
Proof.
  revert acc a. induction exits as [|e exits IH]; intros acc a Ha Hall.
  - exists a. simpl. split; [assumption|]. split; [apply weight_le_refl|]. auto.
  - apply Forall_cons in Hall as [[u Hu] Hall]. simpl.
    destruct (IH (merge_field acc (floor_field e)) (weight_min a u))
      as (v & Hv & Hle & Hbelow & Hatt); [|assumption|].
    { rewrite cell_merge_field, Ha, Hu. reflexivity. }
    exists v. split; [assumption|]. split; [|split].
    + eapply weight_le_trans; [exact Hle|apply weight_min_le_stored].
    + constructor; [|assumption]. intros u' Hu'. rewrite Hu in Hu'.
      injection Hu' as <-.
      eapply weight_le_trans; [exact Hle|apply weight_min_le_new].
    + destruct Hatt as [->|Hex]; [|right; constructor 2; assumption].
      destruct (weight_min_cases a u) as [->| ->]; [auto|].
      right. constructor 1. assumption.
Qed.

(** C4: after a successful [calculate_final_floor_field] the final field
    holds, in every cell, the minimum of the exits' fields: a value below
    every exit's value that one of the exits has there, and the sentinel when
    no exit has a finite value there. *)
Theorem final_floor_field_is_minimum
    (build : list (list Cell_Kind) -> Exit -> Double_Grid)
    (a : Command_Line_Args) (w : World Registry) (i j : nat) :
  let r := calculate_final_floor_field build a w in
  let exits := exits_list (exits_set (snd r)) in
  let lines := Z.to_nat (global_line_number a) in
  let columns := Z.to_nat (global_column_number a) in
  fst r = SUCCESS ->
  forallb (fun e => has_dimensions lines columns (floor_field e)) exits = true ->
  (i < lines)%nat -> (j < columns)%nat ->
  exists v,
    cell (final_floor_field (exits_set (snd r))) i j = Some v
    /\ Forall (fun e => forall u, cell (floor_field e) i j = Some u -> weight_le v u)
         exits
    /\ (v = Infinite \/ Exists (fun e => cell (floor_field e) i j = Some v) exits)
    /\ (Forall (fun e => cell (floor_field e) i j = Some Infinite) exits ->
        v = Infinite).
Proof.
  cbv zeta. unfold calculate_final_floor_field. cbn [fst snd exits_set
    exits_list final_floor_field].
  set (exits := map _ (exits_list (exits_set w))).
  intros _ Hdim Hi Hj. rewrite forallb_forall in Hdim.
  destruct (cell_fold_merge exits
              (constant_grid (Z.to_nat (global_line_number a))
                 (Z.to_nat (global_column_number a)) Infinite) i j Infinite)
    as (v & Hv & _ & Hbelow & Hatt).
  { apply cell_constant_grid; assumption. }
  { apply Forall_forall. intros e He.
    eapply has_dimensions_cell; [apply Hdim, list_elem_of_In, He|assumption..]. }
  exists v. split; [exact Hv|]. split; [exact Hbelow|]. split.
  - destruct Hatt as [->|Hex]; auto.
  - intros Hinf. destruct Hatt as [->|Hex]; [reflexivity|].
    apply Exists_exists in Hex as (e & He & Hev).
    rewrite Forall_forall in Hinf. specialize (Hinf e He). congruence.
Qed.

End Floor_Field_Facts.

(** ** Conflicts and their resolution *)

Section Conflict_Facts.
Import Core.

Ltac to_fmap :=
  repeat match goal with
         | |- context [map ?f ?l] => change (map f l) with (f <$> l)
         | H : context [map ?f ?l] |- _ => change (map f l) with (f <$> l) in H
         end.

Lemma elem_of_proposers (t : Location) (ps : list Pedestrian) (i : nat) :
  i ∈ proposers t ps <-> target <$> ps !! i = Some t.
Proof.
  unfold proposers. rewrite list_elem_of_filter, elem_of_seq.
  rewrite bool_decide_spec. split; [tauto|].
  intros Ht. split; [assumption|].
  destruct (ps !! i) as [p|] eqn:Hp; [|discriminate].
  apply lookup_lt_Some in Hp. lia.
Qed.

Lemma NoDup_proposers (t : Location) (ps : list Pedestrian) :
  NoDup (proposers t ps).
Proof. apply NoDup_filter, NoDup_seq. Qed.

Lemma elem_of_identify_conflicts (ps : list Pedestrian) (c : Cell_Conflict) :
  c ∈ identify_conflicts ps <->
  c = mkConflict (conflict_cell c) (proposers (conflict_cell c) ps)
  /\ (2 <= length (contenders c))%nat
  /\ conflict_cell c ∈ map target ps.
Proof.
  unfold identify_conflicts. to_fmap.
  rewrite list_elem_of_filter, list_elem_of_fmap. split.
  - intros (Hn & t & -> & Ht). rewrite elem_of_remove_dups in Ht.
    split; [reflexivity|]. split; assumption.
  - intros (Hc & Hn & Ht). split; [assumption|].
    exists (conflict_cell c). split; [assumption|].
    apply elem_of_remove_dups, Ht.
Qed.

Lemma NoDup_identify_conflicts (ps : list Pedestrian) :
  NoDup (identify_conflicts ps).
Proof.
  unfold identify_conflicts. to_fmap. apply NoDup_filter, NoDup_fmap_2.
  - intros t1 t2 Heq. congruence.
  - apply NoDup_remove_dups.
Qed.

(** A pedestrian contends in one conflict at most. *)
Lemma conflicts_disjoint (ps : list Pedestrian) (c1 c2 : Cell_Conflict) (i : nat) :
  c1 ∈ identify_conflicts ps -> c2 ∈ identify_conflicts ps ->
  i ∈ contenders c1 -> i ∈ contenders c2 -> c1 = c2.
Proof.
  intros (E1 & _)%elem_of_identify_conflicts (E2 & _)%elem_of_identify_conflicts.
  rewrite E1, E2. cbn [contenders]. rewrite !elem_of_proposers.
  intros H1 H2. congruence.
Qed.

Section Resolution.
Variable P : Policies.
Variable d : Cell_Conflict -> Z -> nat.

Lemma settle_lookup (c : Cell_Conflict) (x : Z) (ps : list Pedestrian) (i : nat) :
  settle d c x ps !! i =
    (fun p => if bool_decide (i ∈ contenders c) && negb (i =? winner d c x)%nat
              then block p else p) <$> ps !! i.
Proof. unfold settle. apply list_lookup_imap. Qed.

Lemma settle_other (c : Cell_Conflict) (x : Z) (ps : list Pedestrian) (i : nat) :
  i ∉ contenders c -> settle d c x ps !! i = ps !! i.
Proof.
  intros Hi. rewrite settle_lookup, bool_decide_eq_false_2 by assumption.
  destruct (ps !! i); reflexivity.
Qed.

Lemma resolve_other (cs : list Cell_Conflict) (r : Rand_State)
    (ps : list Pedestrian) (i : nat) :
  (forall c, c ∈ cs -> i ∉ contenders c) ->
  fst (resolve P d cs r ps) !! i = ps !! i.
Proof.
  revert r ps. induction cs as [|c cs IH]; intros r ps Hi; [reflexivity|].
  cbn [resolve]. unfold rand at 1.
  rewrite IH by (intros c' Hc'; apply Hi; right; assumption).
  apply settle_other, Hi. left.
Qed.

(** Each conflict of a set of disjoint conflicts has a draw that decides it:
    the contender the draw designates is left as it was, every other
    contender is blocked. *)
Lemma resolve_decides (cs : list Cell_Conflict) (r : Rand_State)
    (ps : list Pedestrian) (c : Cell_Conflict) :
  NoDup cs ->
  (forall c1 c2 i, c1 ∈ cs -> c2 ∈ cs ->
     i ∈ contenders c1 -> i ∈ contenders c2 -> c1 = c2) ->
  c ∈ cs ->
  exists x : Z,
    forall i, i ∈ contenders c ->
      fst (resolve P d cs r ps) !! i =
        (fun p => if (i =? winner d c x)%nat then p else block p) <$> ps !! i.
Proof.
  revert r ps. induction cs as [|c0 cs IH]; intros r ps Hnd Hdis Hc.
  - inversion Hc.
  - apply NoDup_cons in Hnd as [Hc0 Hnd]. cbn [resolve]. unfold rand at 1.
    set (x := rand_value P (seeded_with r) (draws r)).
    set (r1 := mkRand (seeded_with r) (S (draws r))).
    apply elem_of_cons in Hc as [->|Hc].
    + exists x. intros i Hi. rewrite resolve_other.
      * rewrite settle_lookup, bool_decide_eq_true_2 by assumption.
        destruct (ps !! i); cbn; [|reflexivity].
        destruct (i =? winner d c0 x)%nat; reflexivity.
      * intros c' Hc' Hi'. apply Hc0.
        rewrite (Hdis c0 c' i); [assumption|left|right; assumption|assumption..].
    + destruct (IH r1 (settle d c0 x ps)) as [y Hy]; [assumption| |assumption|].
      { intros c1 c2 i H1 H2. apply Hdis; right; assumption. }
      exists y. intros i Hi. rewrite (Hy i Hi), settle_other; [reflexivity|].
      intros Hi0. apply Hc0.
      rewrite (Hdis c0 c i); [assumption|left|right; assumption|assumption..].
Qed.


End Resolution.
End Conflict_Facts.

(** ** Lists of pedestrians and the occupancy grid *)

Section Automaton_Facts.

Lemma for_each_pointwise (P : Core.Policies)
    (step : Z -> Core.Pedestrian -> Core.Pedestrian)
    (r : Rand_State) (ps : list Core.Pedestrian) :
  Forall2 (fun p p' => exists x, p' = step x p) ps
    (fst (Core.for_each_pedestrian P step r ps)).
Proof.
  revert r. induction ps as [|p ps IH]; intros r; cbn [Core.for_each_pedestrian].
  - constructor.
  - unfold Core.rand at 1.
    set (r1 := mkRand _ _).
    specialize (IH r1).
    destruct (Core.for_each_pedestrian P step r1 ps) as [done r2].
    cbn [fst] in *. constructor; [eauto|assumption].
Qed.

Lemma Forall2_positions (ps ps' : list Core.Pedestrian) :
  Forall2 (fun p p' => Core.position p' = Core.position p) ps ps' ->
  map Core.position ps' = map Core.position ps.
Proof. induction 1; cbn; congruence. Qed.

Lemma Forall2_carry (Q : Core.Pedestrian -> Prop) (ps ps' : list Core.Pedestrian) :
  Forall2 (fun p p' => Q p -> Q p') ps ps' -> Forall Q ps -> Forall Q ps'.
Proof.
  induction 1; intros Hq; [constructor|].
  apply Forall_cons in Hq as [Hx Hq]. constructor; auto.
Qed.

Lemma position_move (p : Core.Pedestrian) :
  Core.position (Core.move p) = Core.target p.
Proof.
  unfold Core.move. destruct (bool_decide_reflect (Core.target p = Core.position p));
    [congruence|reflexivity].
Qed.

Lemma NoDup_map_filter {A B} (f : A -> B) (Q : A -> Prop)
    `{!forall x, Decision (Q x)} (l : list A) :
  NoDup (map f l) -> NoDup (map f (filter Q l)).
Proof.
  intros Hnd. change (NoDup (f <$> filter Q l)).
  eapply sublist_NoDup; [exact Hnd|].
  change (map f l) with (f <$> l). apply fmap_sublist, sublist_filter.
Qed.

Lemma two_members (l : list nat) (i j : nat) :
  NoDup l -> i ∈ l -> j ∈ l -> i <> j -> (2 <= length l)%nat.
Proof.
  intros Hnd Hi Hj Hne.
  destruct l as [|a [|b l]]; cbn; try lia.
  - inversion Hi.
  - apply list_elem_of_singleton in Hi, Hj. congruence.
Qed.

(** The occupancy grid shows a pedestrian wherever one stands. *)
Lemma occupancy_free (lines columns : Z) (ps : list Core.Pedestrian) (c : Location) :
  Core.unoccupied (Core.occupancy lines columns ps) c = true ->
  c ∉ map Core.position ps.
Proof.
  unfold Core.unoccupied, Core.grid_at, Core.cell, Core.occupancy.
  destruct ((0 <=? lin c) && (0 <=? col c)) eqn:Hc; [|discriminate].
  apply andb_prop in Hc as [Hl Hk]. apply Z.leb_le in Hl, Hk.
  change (map ?f ?l) with (f <$> l). rewrite list_lookup_fmap.
  destruct (seqZ 0 lines !! Z.to_nat (lin c)) as [i|] eqn:Ei;
    cbn [fmap option_fmap option_map]; [|discriminate].
  change (map ?f ?l) with (f <$> l). rewrite list_lookup_fmap.
  destruct (seqZ 0 columns !! Z.to_nat (col c)) as [j|] eqn:Ej;
    cbn [fmap option_fmap option_map]; [|discriminate].
  apply lookup_seqZ in Ei as [-> _]. apply lookup_seqZ in Ej as [-> _].
  rewrite !Z.add_0_l, !Z2Nat.id by assumption.
  destruct c as [l k]. cbn [lin col].
  destruct (bool_decide_reflect
              ({| lin := l; col := k |} ∈ map Core.position ps)); [discriminate|].
  intros _. assumption.
Qed.

Lemma occupancy_positions (lines columns : Z) (ps ps' : list Core.Pedestrian) :
  map Core.position ps = map Core.position ps' ->
  Core.occupancy lines columns ps = Core.occupancy lines columns ps'.
Proof. unfold Core.occupancy. intros ->. reflexivity. Qed.

End Automaton_Facts.

(** ** Resolved proposals *)

Section Occupancy_Facts.

Section Resolved.
Variable P : Core.Policies.
Variable d : Cell_Conflict -> Z -> nat.

Lemma resolve_cons (c : Cell_Conflict) (cs : list Cell_Conflict) (r : Rand_State)
    (ps : list Core.Pedestrian) :
  Core.resolve P d (c :: cs) r ps =
    Core.resolve P d cs (mkRand (seeded_with r) (S (draws r)))
      (Core.settle d c (Core.rand_value P (seeded_with r) (draws r)) ps).
Proof. reflexivity. Qed.

(** Resolution leaves a pedestrian as it was or blocks it. *)
Lemma resolve_cases (cs : list Cell_Conflict) (r : Rand_State)
    (ps : list Core.Pedestrian) (i : nat) :
  fst (Core.resolve P d cs r ps) !! i = ps !! i
  \/ fst (Core.resolve P d cs r ps) !! i = Core.block <$> ps !! i.
Proof.
  revert r ps. induction cs as [|c cs IH]; intros r ps; [left; reflexivity|].
  rewrite resolve_cons.
  destruct (IH (mkRand (seeded_with r) (S (draws r)))
              (Core.settle d c (Core.rand_value P (seeded_with r) (draws r)) ps))
    as [E|E]; rewrite E, settle_lookup; destruct (ps !! i) as [p|]; cbn; auto;
    destruct (_ && _); auto.
Qed.

(** Of two pedestrians that propose the same cell, one is blocked. *)
Lemma rivals_blocked (r : Rand_State) (ps : list Core.Pedestrian)
    (i j : nat) (pi pj : Core.Pedestrian) :
  i <> j -> ps !! i = Some pi -> ps !! j = Some pj ->
  Core.target pi = Core.target pj ->
  let ps' := fst (Core.resolve P d (Core.identify_conflicts ps) r ps) in
  ps' !! i = Some (Core.block pi) \/ ps' !! j = Some (Core.block pj).
Proof.
  intros Hne Hi Hj Ht. cbv zeta.
  set (t := Core.target pi).
  set (c := mkConflict t (Core.proposers t ps)).
  assert (Hic : i ∈ contenders c).
  { apply elem_of_proposers. rewrite Hi. reflexivity. }
  assert (Hjc : j ∈ contenders c).
  { apply elem_of_proposers. rewrite Hj. unfold t. cbn. congruence. }
  assert (Hc : c ∈ Core.identify_conflicts ps).
  { apply elem_of_identify_conflicts. split; [reflexivity|]. split.
    - eapply two_members; [apply NoDup_proposers|exact Hic|exact Hjc|exact Hne].
    - change (t ∈ Core.target <$> ps). apply list_elem_of_fmap.
      exists pi. split; [reflexivity|]. eapply list_elem_of_lookup_2, Hi. }
  destruct (resolve_decides P d (Core.identify_conflicts ps) r ps c) as [x Hx];
    [apply NoDup_identify_conflicts|apply conflicts_disjoint|exact Hc|].
  destruct (Nat.eqb_spec i (Core.winner d c x)) as [Hw|Hw].
  - right. rewrite (Hx j Hjc), Hj. cbn [fmap option_fmap option_map].
    destruct (Nat.eqb_spec j (Core.winner d c x)); [congruence|reflexivity].
  - left. rewrite (Hx i Hic), Hi. cbn [fmap option_fmap option_map].
    destruct (Nat.eqb_spec i (Core.winner d c x)); [congruence|reflexivity].
Qed.

(** When no accepted move but "stay" leads to a cell where a pedestrian
    stands, the resolved targets are all different. *)
Lemma resolved_targets_distinct (r : Rand_State) (ps : list Core.Pedestrian) :
  NoDup (map Core.position ps) ->
  Forall (fun p => Core.target p = Core.position p
                   \/ Core.target p ∉ map Core.position ps) ps ->
  NoDup (map Core.target (fst (Core.resolve P d (Core.identify_conflicts ps) r ps))).
Proof.
  intros Hnd Hvalid. set (ps' := fst _).
  assert (Hpos : forall i j pi pj, i <> j -> ps !! i = Some pi -> ps !! j = Some pj ->
                 Core.position pi <> Core.position pj).
  { intros i j pi pj Hne Hi Hj Heq. apply Hne.
    eapply (proj1 (NoDup_alt _) Hnd i j (Core.position pi));
      change (map ?f ?l) with (f <$> l); rewrite list_lookup_fmap.
    - rewrite Hi. reflexivity.
    - rewrite Hj, Heq. reflexivity. }
  assert (Hclash : forall i j pi pj, i <> j -> ps !! i = Some pi -> ps !! j = Some pj ->
                   Core.target pj <> Core.position pi).
  { intros i j pi pj Hne Hi Hj Heq.
    rewrite Forall_forall in Hvalid.
    destruct (Hvalid pj) as [Hstay|Hfree].
    - eapply list_elem_of_lookup_2, Hj.
    - apply (Hpos i j pi pj); congruence.
    - apply Hfree. rewrite Heq. change (map ?f ?l) with (f <$> l).
      apply list_elem_of_fmap_2. eapply list_elem_of_lookup_2, Hi. }
  apply NoDup_alt. intros i j X. change (map ?f ?l) with (f <$> l).
  rewrite !list_lookup_fmap. intros Hi Hj.
  destruct (decide (i = j)) as [|Hne]; [assumption|exfalso].
  destruct (ps' !! i) as [qi|] eqn:Ei; [|discriminate].
  destruct (ps' !! j) as [qj|] eqn:Ej; [|discriminate].
  cbn in Hi, Hj. injection Hi as Hi. injection Hj as Hj.
  pose proof (resolve_cases (Core.identify_conflicts ps) r ps i) as Ci.
  pose proof (resolve_cases (Core.identify_conflicts ps) r ps j) as Cj.
  fold ps' in Ci, Cj. rewrite Ei in Ci. rewrite Ej in Cj.
  destruct (ps !! i) as [pi|] eqn:Hpi; [|destruct Ci; discriminate].
  destruct (ps !! j) as [pj|] eqn:Hpj; [|destruct Cj; discriminate].
  pose proof (Hclash i j pi pj Hne Hpi Hpj) as C1.
  pose proof (Hclash j i pj pi (not_eq_sym Hne) Hpj Hpi) as C2.
  pose proof (Hpos i j pi pj Hne Hpi Hpj) as C3.
  pose proof (rivals_blocked r ps i j pi pj Hne Hpi Hpj) as Hb.
  cbv zeta in Hb. fold ps' in Hb. rewrite Ei, Ej in Hb.
  cbn [fmap option_fmap option_map] in Ci, Cj.
  assert (Ti : Core.target qi = Core.target pi \/ Core.target qi = Core.position pi).
  { destruct Ci as [Ci|Ci]; injection Ci as ->; auto. }
  assert (Tj : Core.target qj = Core.target pj \/ Core.target qj = Core.position pj).
  { destruct Cj as [Cj|Cj]; injection Cj as ->; auto. }
  destruct Ti as [Ti|Ti], Tj as [Tj|Tj]; try congruence.
  destruct Hb as [Hb|Hb]; [congruence| |]; injection Hb as ->;
    cbn [Core.target Core.block] in *; congruence.
Qed.

End Resolved.
End Occupancy_Facts.

(** ** The phases and the occupancy invariant *)

Section Timestep_Invariant.

Section Kept.
Variable P : Core.Policies.


Lemma lowest_candidates (cs : list Location) (score : Location -> Weight)
    (c : Location) :
  c ∈ Core.lowest (map (fun c => (c, score c)) cs) -> c ∈ cs.
Proof.
  unfold Core.lowest. change (map ?f ?l) with (f <$> l).
  intros (cw & -> & Hcw)%list_elem_of_fmap.
  apply list_elem_of_filter in Hcw as [_ Hcw].
  apply list_elem_of_fmap in Hcw as (c' & -> & Hc'). exact Hc'.
Qed.

Lemma propose_ok (reg : Core.Registry) (field : Double_Grid) (x : Z)
    (p : Core.Pedestrian) :
  Core.position (Core.propose P reg field x p) = Core.position p
  /\ stays_or_free (Core.pedestrian_position_grid reg) (Core.propose P reg field x p).
Proof.
  split; [reflexivity|]. unfold stays_or_free, Core.propose, Core.set_target.
  cbn [Core.target Core.position].
  match goal with
  | |- nth ?k ?pool ?d = _ \/ _ =>
      destruct (nth_in_or_default k pool d) as [Hin|Hd]
  end; [|left; assumption].
  apply list_elem_of_In in Hin.
  assert (Hc : nth (Core.choose P (Core.in_panic p)
                      (if Core.in_panic p then Core.candidates P reg p
                       else Core.lowest
                              (map (fun c => (c, Core.field_at field c))
                                 (Core.candidates P reg p))) x)
                 (if Core.in_panic p then Core.candidates P reg p
                  else Core.lowest
                         (map (fun c => (c, Core.field_at field c))
                            (Core.candidates P reg p)))
                 (Core.position p) ∈ Core.candidates P reg p).
  { destruct (Core.in_panic p); [exact Hin|].
    eapply lowest_candidates, Hin. }
  unfold Core.candidates in Hc at 3.
  apply elem_of_cons in Hc as [Hc|Hc]; [left; exact Hc|right].
  apply list_elem_of_filter in Hc as [Hok _].
  apply Is_true_true, andb_prop in Hok as [_ Hfree]. exact Hfree.
Qed.

Lemma evaluate_keeps (a : Command_Line_Args) (w : World Core.Registry) :
  let w' := Core.evaluate_pedestrians_movements P a w in
  Core.pedestrian_position_grid (rest w') = Core.pedestrian_position_grid (rest w)
  /\ map Core.position (Core.pedestrians (rest w')) = map Core.position (Core.pedestrians (rest w))
  /\ Forall (stays_or_free (Core.pedestrian_position_grid (rest w))) (Core.pedestrians (rest w')).
Proof.
  cbv zeta. unfold Core.evaluate_pedestrians_movements.
  pose proof (for_each_pointwise P
                (Core.propose P (rest w) (final_floor_field (exits_set w)))
                (rand_state w) (Core.pedestrians (rest w))) as Hp.
  destruct (Core.for_each_pedestrian P _ (rand_state w) (Core.pedestrians (rest w))) as [ps r].
  cbn [fst] in Hp. cbn. split; [reflexivity|]. split.
  - apply Forall2_positions. eapply Forall2_impl; [exact Hp|].
    intros p p' [x ->]. apply propose_ok.
  - induction Hp as [|p p' ps0 ps1 [x ->] _ IH]; constructor; [|exact IH].
    apply propose_ok.
Qed.

Lemma determine_keeps (a : Command_Line_Args) (w : World Core.Registry) :
  let w' := Core.determine_pedestrians_in_panic P a w in
  Core.pedestrian_position_grid (rest w') = Core.pedestrian_position_grid (rest w)
  /\ map Core.position (Core.pedestrians (rest w')) = map Core.position (Core.pedestrians (rest w))
  /\ (Forall (stays_or_free (Core.pedestrian_position_grid (rest w))) (Core.pedestrians (rest w)) ->
      Forall (stays_or_free (Core.pedestrian_position_grid (rest w))) (Core.pedestrians (rest w'))).
Proof.
  cbv zeta. unfold Core.determine_pedestrians_in_panic.
  pose proof (for_each_pointwise P
                (fun x p => Core.set_panic p
                              (Core.in_panic p || Core.enters_panic P (rest w) p x))
                (rand_state w) (Core.pedestrians (rest w))) as Hp.
  destruct (Core.for_each_pedestrian P _ (rand_state w) (Core.pedestrians (rest w))) as [ps r].
  cbn [fst] in Hp. cbn. split; [reflexivity|]. split.
  - apply Forall2_positions. eapply Forall2_impl; [exact Hp|].
    intros p p' [x ->]. reflexivity.
  - apply Forall2_carry. eapply Forall2_impl; [exact Hp|].
    intros p p' [x ->] Hq. exact Hq.
Qed.

Lemma Forall2_map_self {A} (f : A -> A) (l : list A) :
  Forall2 (fun x y => y = f x) l (map f l).
Proof. induction l; constructor; auto. Qed.

Lemma block_keeps (a : Command_Line_Args) (w : World Core.Registry) :
  let w' := Core.block_X_movement P a w in
  Core.pedestrian_position_grid (rest w') = Core.pedestrian_position_grid (rest w)
  /\ map Core.position (Core.pedestrians (rest w')) = map Core.position (Core.pedestrians (rest w))
  /\ (Forall (stays_or_free (Core.pedestrian_position_grid (rest w))) (Core.pedestrians (rest w)) ->
      Forall (stays_or_free (Core.pedestrian_position_grid (rest w))) (Core.pedestrians (rest w'))).
Proof.
  cbv zeta. unfold Core.block_X_movement. cbn.
  set (f := fun p : Core.Pedestrian =>
              if Core.lateral_only P (Core.position p) (Core.target p)
              then Core.block p else p).
  pose proof (Forall2_map_self f (Core.pedestrians (rest w))) as Hp.
  split; [reflexivity|]. split.
  - apply Forall2_positions. eapply Forall2_impl; [exact Hp|].
    intros p p' ->. unfold f. destruct (Core.lateral_only _ _ _); reflexivity.
  - apply Forall2_carry. eapply Forall2_impl; [exact Hp|].
    intros p p' -> Hq. unfold f.
    destruct (Core.lateral_only _ _ _); [left; reflexivity|exact Hq].
Qed.

Lemma before_conflicts_keeps (s : State Core.Registry) :
  let w := world s in
  let w' := world (before_conflicts (TA := Core.timestep_api P) s) in
  Core.pedestrian_position_grid (rest w') = Core.pedestrian_position_grid (rest w)
  /\ map Core.position (Core.pedestrians (rest w')) =
       map Core.position (Core.pedestrians (rest w))
  /\ Forall (stays_or_free (Core.pedestrian_position_grid (rest w)))
       (Core.pedestrians (rest w')).
Proof.
  cbv zeta. unfold before_conflicts.
  cbn [world evaluate_pedestrians_movements determine_pedestrians_in_panic
       block_X_movement Core.timestep_api].
  destruct (evaluate_keeps (cli_args s) (world s)) as (G1 & P1 & Q1).
  destruct (determine_keeps (cli_args s)
              (Core.evaluate_pedestrians_movements P (cli_args s) (world s)))
    as (G2 & P2 & Q2).
  rewrite G1 in Q2. specialize (Q2 Q1).
  destruct (allow_X_movement (cli_args s)).
  - rewrite G2, G1, P2, P1. auto.
  - destruct (block_keeps (cli_args s)
                (Core.determine_pedestrians_in_panic P (cli_args s)
                   (Core.evaluate_pedestrians_movements P (cli_args s) (world s))))
      as (G3 & P3 & Q3).
    rewrite G2, G1 in Q3. rewrite G3, G2, G1, P3, P2, P1. auto.
Qed.

Lemma after_conflicts_pedestrians (s : State Core.Registry) :
  let w := world (before_conflicts (TA := Core.timestep_api P) s) in
  Core.pedestrians (rest (after_conflicts (TA := Core.timestep_api P) s)) =
    fst (Core.resolve P
           (Core.conflict_draw P (final_floor_field (exits_set w))
              (Core.pedestrians (rest w)))
           (Core.identify_conflicts (Core.pedestrians (rest w)))
           (rand_state w) (Core.pedestrians (rest w)))
  /\ Core.environment_only_grid (rest (after_conflicts (TA := Core.timestep_api P) s))
     = Core.environment_only_grid (rest w).
Proof.
  cbv zeta. unfold after_conflicts.
  cbn [identify_pedestrian_conflicts solve_pedestrian_conflicts Core.timestep_api].
  unfold Core.identify_pedestrian_conflicts, Core.solve_pedestrian_conflicts.
  cbn [fst snd].
  destruct (Core.resolve P _ _ _ _) as [ps r]. split; reflexivity.
Qed.

(** One timestep of the automaton keeps the occupancy invariant, and no two
    pedestrians share a cell after its apply phase. *)
Lemma timestep_keeps_occupancy (s : State Core.Registry) :
  occupancy_ok (cli_args s) (world s) = true ->
  NoDup (positions (after_apply (TA := Core.timestep_api P) s))
  /\ occupancy_ok (cli_args s) (after_timestep (TA := Core.timestep_api P) s) = true.
Proof.
  unfold occupancy_ok at 1. intros [Hnd Hg]%andb_prop.
  apply bool_decide_eq_true in Hnd, Hg. unfold positions in Hnd.
  destruct (before_conflicts_keeps s) as (G3 & P3 & Q3). cbv zeta in G3, P3, Q3.
  destruct (after_conflicts_pedestrians s) as (E4 & _). cbv zeta in E4.
  set (w3 := world (before_conflicts s)) in *.
  assert (Hvalid :
    Forall (fun p => Core.target p = Core.position p
                     \/ Core.target p ∉ map Core.position (Core.pedestrians (rest w3)))
      (Core.pedestrians (rest w3))).
  { eapply Forall_impl; [exact Q3|]. intros p [Hs|Hf]; [left; exact Hs|right].
    rewrite P3. rewrite Hg in Hf. eapply occupancy_free, Hf. }
  rewrite <- P3 in Hnd.
  pose proof (resolved_targets_distinct P
                (Core.conflict_draw P (final_floor_field (exits_set w3))
                   (Core.pedestrians (rest w3)))
                (rand_state w3) _ Hnd Hvalid) as Hd.
  rewrite <- E4 in Hd.
  assert (Happly : NoDup (positions (after_apply (TA := Core.timestep_api P) s))).
  { unfold positions, after_apply.
    cbn [apply_pedestrian_movement Core.timestep_api].
    unfold Core.apply_pedestrian_movement. cbn [rest Core.with_pedestrians Core.pedestrians].
    apply NoDup_map_filter. rewrite map_map.
    erewrite map_ext; [exact Hd|]. intros p. apply position_move. }
  split; [exact Happly|].
  unfold occupancy_ok, after_timestep.
  cbn [update_pedestrian_position_grid reset_pedestrian_state
       reset_pedestrian_panic Core.timestep_api].
  unfold Core.reset_pedestrian_panic, Core.reset_pedestrian_state,
    Core.update_pedestrian_position_grid, positions.
  cbn [rest Core.with_pedestrians Core.pedestrians Core.pedestrian_position_grid
       rand_state].
  rewrite !map_map. cbn [Core.position Core.set_panic].
  apply andb_true_intro. split; apply bool_decide_eq_true.
  - exact Happly.
  - apply occupancy_positions. rewrite !map_map. reflexivity.
Qed.

End Kept.
End Timestep_Invariant.

(** ** The automaton under the timestep of main.c *)

Section Automaton_Claims.
Variable P : Core.Policies.

Lemma core_conflict_solving (s : State Core.Registry) :
  result_of (conflict_solving (TA := Core.timestep_api P) s) = SUCCESS
  /\ Core.pedestrians (rest (world (state_of (conflict_solving (TA := Core.timestep_api P) s)))) =
       fst (Core.resolve P
              (Core.conflict_draw P (final_floor_field (exits_set (world s)))
                 (Core.pedestrians (rest (world s))))
              (Core.identify_conflicts (Core.pedestrians (rest (world s))))
              (rand_state (world s)) (Core.pedestrians (rest (world s)))).
Proof.
  unfold conflict_solving. unfold_prog.
  cbn [identify_pedestrian_conflicts solve_pedestrian_conflicts Core.timestep_api].
  unfold Core.identify_pedestrian_conflicts, Core.solve_pedestrian_conflicts.
  cbn [fst snd world cli_args Function_Status_eqb].
  destruct (Core.resolve P _ _ _ _) as [ps r].
  cbn [fst snd world cli_args Function_Status_eqb].
  destruct (show_debug_information (cli_args s)); split; reflexivity.
Qed.

Lemma core_timestep_succeeds (i n : Z) (s : State Core.Registry) :
  result_of (timestep (TA := Core.timestep_api P) i n s) = SUCCESS.
Proof.
  rewrite timestep_result.
  destruct (core_conflict_solving (before_conflicts (TA := Core.timestep_api P) s))
    as [-> _].
  reflexivity.
Qed.


(** C6, as the code has it: every timestep of the automaton completes and
    ends with the reset of the transient state followed by the reset of the
    panic state: when it is over no pedestrian is in panic, as no pedestrian
    has a pending proposal or outcome. *)
Theorem panic_reset_every_timestep (i n : Z) (s : State Core.Registry) :
  let x := timestep (TA := Core.timestep_api P) i n s in
  result_of x = SUCCESS
  /\ phases (trace_of x) = completed_phases (cli_args s)
  /\ Forall (fun p => Core.in_panic p = false
                      /\ Core.target p = Core.position p
                      /\ Core.outcome p = Core.No_outcome)
       (Core.pedestrians (rest (world (state_of x)))).
Proof.
  cbv zeta. pose proof (core_timestep_succeeds i n s) as Hr.
  split; [exact Hr|]. split.
  { rewrite timestep_trace, Hr. reflexivity. }
  destruct (timestep_completed (TA := Core.timestep_api P) i n s) as [-> _];
    [congruence|].
  unfold after_timestep.
  cbn [reset_pedestrian_state reset_pedestrian_panic Core.timestep_api].
  unfold Core.reset_pedestrian_panic, Core.reset_pedestrian_state.
  cbn [rest Core.with_pedestrians Core.pedestrians]. rewrite map_map.
  apply Forall_forall. intros p Hp. apply list_elem_of_In, in_map_iff in Hp
    as (q & <- & _). auto.
Qed.

Section Loop.
Context `{RA : Run_Api Core.Registry}.

Lemma applied_worlds_app (t1 t2 : list (Event Core.Registry)) :
  applied_worlds (t1 ++ t2) = applied_worlds t1 ++ applied_worlds t2.
Proof. apply omap_app. Qed.

(** C2: started where no two pedestrians share a cell and the occupancy grid
    agrees with the pedestrian set, the timestep loop keeps it so: after
    every apply phase all positions differ, and the invariant holds again
    when the loop is left, after however many timesteps. *)
Theorem no_two_pedestrians_share_a_cell (fuel : nat) (i n : Z)
    (s : State Core.Registry) :
  occupancy_ok (cli_args s) (world s) = true ->
  let x := timestep_loop (TA := Core.timestep_api P) fuel i n s in
  Forall (fun w => NoDup (positions w)) (applied_worlds (trace_of x))
  /\ occupancy_ok (cli_args s) (world (state_of x)) = true.
Proof.
  cbv zeta. revert n s. induction fuel as [|fuel IH]; intros n s Hok;
    destruct (is_environment_empty (cli_args s) (world s)) eqn:E.
  - rewrite timestep_loop_empty by assumption. split; [constructor|exact Hok].
  - rewrite timestep_loop_stop by assumption. split; [constructor|exact Hok].
  - rewrite timestep_loop_empty by assumption. split; [constructor|exact Hok].
  - rewrite timestep_loop_step by assumption. cbv zeta.
    rewrite core_timestep_succeeds. cbn [Function_Status_eqb].
    cbn [result_of state_of trace_of fst snd].
    destruct (timestep_completed (TA := Core.timestep_api P) i n s) as [Hw Ha];
      [rewrite core_timestep_succeeds; discriminate|].
    destruct (timestep_keeps_occupancy P s Hok) as [Hnd Hok'].
    destruct (IH (n + 1) (state_of (timestep (TA := Core.timestep_api P) i n s)))
      as [IH1 IH2].
    { rewrite timestep_args, Hw. exact Hok'. }
    rewrite timestep_args in IH2.
    split; [|exact IH2].
    rewrite applied_worlds_app, Ha. constructor; assumption.
Qed.

End Loop.
End Automaton_Claims.

(** ** The room, run *)

Section Room_Runs.
#[local] Existing Instance Room.run_api.

(** The left cell of the middle row of the room: both exits give it 2. *)
Lemma final_floor_field_is_minimum_witness :
  let r := Core.calculate_final_floor_field (fun _ e => floor_field e)
             Room.arguments (world Room.two_pedestrians) in
  let exits := exits_list (exits_set (snd r)) in
  fst r = SUCCESS
  /\ exists v,
       Core.cell (final_floor_field (exits_set (snd r))) 1 0 = Some v
       /\ Forall (fun e => forall u, Core.cell (floor_field e) 1 0 = Some u ->
                           Core.weight_le v u) exits
       /\ (v = Infinite
           \/ Exists (fun e => Core.cell (floor_field e) 1 0 = Some v) exits)
       /\ (Forall (fun e => Core.cell (floor_field e) 1 0 = Some Infinite) exits ->
           v = Infinite).
Proof.
  split; [reflexivity|].
  apply (final_floor_field_is_minimum (fun _ e => floor_field e)
           Room.arguments (world Room.two_pedestrians) 1 0).
  - reflexivity.
  - reflexivity.
  - cbn. lia.
  - cbn. lia.
Defined.

(** The two exits give the middle row the values 2, 1, 2, and the cell
    under each exit the value 0. *)
Lemma room_final_floor_field :
  Core.calculate_final_floor_field (fun _ e => floor_field e)
    Room.arguments (world Room.two_pedestrians)
  = (SUCCESS, world Room.two_pedestrians).
Proof. reflexivity. Qed.

(** The two pedestrians of the room never share a cell. *)
Lemma no_two_pedestrians_share_a_cell_witness :
  let x := timestep_loop (TA := Core.timestep_api (Room.policies false)) 10 0 0
             Room.two_pedestrians in
  Forall (fun w => NoDup (positions w)) (applied_worlds (trace_of x))
  /\ occupancy_ok (cli_args Room.two_pedestrians) (world (state_of x)) = true.
Proof.
  apply (no_two_pedestrians_share_a_cell (Room.policies false) 10 0 0
           Room.two_pedestrians).
  reflexivity.
Defined.

(** In the room both pedestrians propose the middle cell; the second wins
    and the first is blocked where it stands; the room is empty after four
    timesteps. *)
Lemma room_conflict_resolved :
  let api := Core.timestep_api (Room.policies false) in
  let s := before_conflicts (TA := api) Room.two_pedestrians in
  Core.identify_conflicts (Core.pedestrians (rest (world s)))
    = [mkConflict (mkLocation 1 1) [0; 1]%nat]
  /\ map (fun p => (Core.position p, Core.target p, Core.outcome p))
       (Core.pedestrians (rest (world (state_of (conflict_solving (TA := api) s)))))
     = [ (mkLocation 1 0, mkLocation 1 0, Core.Blocked);
         (mkLocation 1 2, mkLocation 1 1, Core.No_outcome) ]
  /\ result_of (timestep_loop (TA := api) 10 0 0 Room.two_pedestrians)
     = Finished (SUCCESS, 4).
Proof. repeat split; reflexivity. Qed.

(** C6 fails as stated: pedestrians that enter panic in a timestep are out
    of it when the timestep ends. *)
Lemma panic_does_not_survive_timestep :
  let api := Core.timestep_api (Room.policies true) in
  map Core.in_panic
    (Core.pedestrians (rest (world (before_conflicts (TA := api) Room.two_pedestrians))))
    = [true; true]
  /\ map Core.in_panic
       (Core.pedestrians
          (rest (world (state_of (timestep (TA := api) 0 0 Room.two_pedestrians)))))
     = [false; false].
Proof. split; reflexivity. Qed.

End Room_Runs.

(** ** What the driver shows beyond the claims

    The calls of a run, of a set and of the whole loop, counted and put in
    order: what is printed, what is released, where a failure leaves the
    process. *)

(** Rewrite with the cases a symbolic run has settled. *)
Ltac know :=
  repeat match goal with
  | E : ?x = true |- context [?x] => rewrite E
  | E : ?x = false |- context [?x] => rewrite E
  | E : output_format ?a = _ |- context [output_format ?a] => rewrite E
  | E : ?x = true, K : context [?x] |- _ => rewrite E in K
  | E : ?x = false, K : context [?x] |- _ => rewrite E in K
  | E : output_format ?a = _, K : context [output_format ?a] |- _ =>
      rewrite E in K
  end.

Section Driver_Shows.
Context {H : Type}.

Lemma timesteps_applied_app (t1 t2 : list (Event H)) :
  timesteps_applied (t1 ++ t2) = (timesteps_applied t1 + timesteps_applied t2)%nat.
Proof.
  unfold timesteps_applied, applied_worlds. rewrite omap_app. apply length_app.
Qed.

Lemma frames_app (t1 t2 : list (Event H)) :
  frames (t1 ++ t2) = frames t1 ++ frames t2.
Proof. apply omap_app. Qed.

Lemma sleeps_app (t1 t2 : list (Event H)) :
  sleeps (t1 ++ t2) = sleeps t1 ++ sleeps t2.
Proof. apply omap_app. Qed.

Lemma timestep_counts_app (t1 t2 : list (Event H)) :
  timestep_counts (t1 ++ t2) = timestep_counts t1 ++ timestep_counts t2.
Proof. apply omap_app. Qed.

Lemma status_lines_app (t1 t2 : list (Event H)) :
  status_lines (t1 ++ t2) = status_lines t1 ++ status_lines t2.
Proof. apply omap_app. Qed.

Lemma status_lines_cons (e : Event H) (t : list (Event H)) :
  status_lines (e :: t) = status_lines [e] ++ status_lines t.
Proof. apply (status_lines_app [e] t). Qed.


Lemma count_app (f : Event H -> bool) (t1 t2 : list (Event H)) :
  count f (t1 ++ t2) = (count f t1 + count f t2)%nat.
Proof. unfold count. rewrite List.filter_app. apply length_app. Qed.

Lemma count_cons (f : Event H -> bool) (e : Event H) (t : list (Event H)) :
  count f (e :: t) = ((if f e then 1 else 0) + count f t)%nat.
Proof. unfold count. cbn [List.filter]. destruct (f e); reflexivity. Qed.

Lemma count_nil (f : Event H -> bool) : count f [] = 0%nat.
Proof. reflexivity. Qed.

Lemma sum_Z_app (l1 l2 : list Z) : sum_Z (l1 ++ l2) = sum_Z l1 + sum_Z l2.
Proof.
  induction l1 as [|x l1 IH]; cbn [sum_Z fold_right app] in *; [reflexivity|].
  unfold sum_Z in *. lia.
Qed.


Lemma no_failure_app (t1 t2 : list (Event H)) :
  no_failure (t1 ++ t2) = no_failure t1 && no_failure t2.
Proof. apply forallb_app. Qed.

Lemma failure_is_last_app (t1 t2 : list (Event H)) :
  no_failure t1 = true -> failure_is_last (t1 ++ t2) = failure_is_last t2.
Proof.
  induction t1 as [|e t1 IH]; simpl; [reflexivity|].
  intros Hq. apply andb_prop in Hq as [He Hq].
  apply negb_true_iff in He. rewrite He. auto.
Qed.

Lemma set_seed_set_seed (a : Command_Line_Args) (x y : Z) :
  set_seed (set_seed a x) y = set_seed a y.
Proof. reflexivity. Qed.

Lemma set_seed_seed (a : Command_Line_Args) : set_seed a (seed a) = a.
Proof. destruct a. reflexivity. Qed.

(** Evaluate what the calls written out in a trace show. *)
Ltac observe :=
  unfold timesteps_applied, applied_worlds, frames, sleeps, timestep_counts in *;
  simpl; rewrite ?omap_app, ?length_app; simpl.

Ltac tally :=
  repeat first [rewrite count_cons | rewrite count_app | rewrite count_nil];
  cbn [pedestrians_inserted pedestrians_deallocated pedestrians_reset
       fetched exits_released closing_event floor_field_passed].

(** A trace that ends where one of its parts ends, or goes on after a part
    without failure. *)
Ltac close_report :=
  rewrite ?app_nil_r, ?no_failure_app;
  repeat match goal with
  | K : no_failure ?l = true |- context [failure_is_last (?l ++ _)] =>
      rewrite (failure_is_last_app l) by exact K
  | K : no_failure ?l = _ |- context [no_failure ?l] => rewrite K
  end;
  cbn [failure_is_last no_failure forallb reported_failure negb andb];
  rewrite ?andb_true_r.

Lemma timestep_events_pedestrians (t : list (Event H)) :
  forallb timestep_event t = true ->
  count pedestrians_inserted t = 0%nat
  /\ count pedestrians_deallocated t = 0%nat
  /\ count pedestrians_reset t = 0%nat.
Proof.
  induction t as [|e t IH]; [auto|]. cbn [forallb].
  intros [He Ht]%andb_prop. destruct (IH Ht) as (H1 & H2 & H3).
  unfold count in *. destruct e; try discriminate; cbn; auto.
Qed.

Lemma run_events_set_kinds (t : list (Event H)) :
  forallb run_event t = true ->
  status_lines t = []
  /\ no_closing t = true
  /\ count fetched t = 0%nat
  /\ count exits_released t = 0%nat
  /\ count floor_field_passed t = 0%nat.
Proof.
  induction t as [|e t IH]; [repeat split; reflexivity|]. cbn [forallb].
  intros [He Ht]%andb_prop. destruct (IH Ht) as (H1 & H2 & H3 & H4 & H5).
  rewrite status_lines_cons, !count_cons, H1, H3, H4, H5.
  unfold no_closing in *. cbn [forallb]. rewrite H2.
  destruct e; try discriminate; repeat split; reflexivity.
Qed.

Lemma timesteps_applied_cons (e : Event H) (t : list (Event H)) :
  timesteps_applied (e :: t) =
    ((match e with Apply_pedestrian_movement _ => 1 | _ => 0 end)
     + timesteps_applied t)%nat.
Proof. unfold timesteps_applied, applied_worlds. destruct e; reflexivity. Qed.

Lemma conflicts_balanced_nil : conflicts_balanced (@nil (Event H)).
Proof. split; reflexivity. Qed.

Lemma conflicts_balanced_app (t1 t2 : list (Event H)) :
  conflicts_balanced t1 -> quiet t1 = true -> conflicts_balanced t2 ->
  conflicts_balanced (t1 ++ t2).
Proof.
  unfold conflicts_balanced. intros [F1 I1] Q1 [F2 I2].
  rewrite !count_app, timesteps_applied_app, quiet_app, Q1, F1, I1, F2, I2.
  rewrite Q1. cbn [andb]. split; lia.
Qed.

Lemma conflicts_balanced_outside (e : Event H) (t : list (Event H)) :
  outside_timestep e = true -> conflicts_balanced t -> conflicts_balanced (e :: t).
Proof.
  unfold conflicts_balanced, outside_timestep. intros He [F I].
  rewrite !count_cons, timesteps_applied_cons. cbn [quiet forallb].
  fold (quiet t). rewrite F, I.
  destruct e; try discriminate; cbn; try (split; lia).
  all: destruct r; try discriminate; cbn; split; lia.
Qed.

Lemma conflicts_balanced_after (t1 t2 : list (Event H)) :
  conflicts_balanced t1 -> forallb outside_timestep t2 = true ->
  conflicts_balanced (t1 ++ t2).
Proof.
  unfold conflicts_balanced. intros [F I] Ho.
  assert (count conflicts_freed t2 = 0%nat
          /\ count conflicts_identified t2 = 0%nat
          /\ timesteps_applied t2 = 0%nat /\ quiet t2 = true)
    as (A & B & C & D).
  { induction t2 as [|e t2 IH]; [repeat split; reflexivity|].
    cbn [forallb] in Ho. apply andb_prop in Ho as [He Ho].
    destruct (IH Ho) as (A & B & C & D).
    rewrite !count_cons, timesteps_applied_cons, A, B, C. cbn [quiet forallb].
    fold (quiet t2). rewrite D. unfold outside_timestep in He.
    destruct e; try discriminate; cbn; auto.
    all: destruct r; try discriminate; cbn; auto. }
  rewrite !count_app, timesteps_applied_app, quiet_app, A, B, C, D, F, I.
  rewrite andb_true_r. split; lia.
Qed.

(** Carry the balance over the calls around the timestep loop. *)
Ltac settle_balance :=
  rewrite ?app_nil_r;
  repeat first
    [ assumption
    | apply conflicts_balanced_nil
    | apply conflicts_balanced_outside; [reflexivity|]
    | apply conflicts_balanced_after; [|reflexivity] ].

Section Timestep_Shows.
Context `{TA : Timestep_Api H}.

Lemma timestep_shows (i n : Z) (s : State H) :
  let x := timestep i n s in
  let done := negb (Function_Status_eqb (result_of x) FAILURE) in
  timesteps_applied (trace_of x) = (if done then 1 else 0)%nat
  /\ frames (trace_of x) =
       (if done && visualized (cli_args s) then [(i, n + 1)] else [])
  /\ sleeps (trace_of x) =
       (if done && visualized (cli_args s) && negb (write_to_file (cli_args s))
        then [1] else [])
  /\ timestep_counts (trace_of x) = [].
Proof.
  cbv zeta. unfold visualized, timestep, conflict_solving.
  run_prog; repeat split; reflexivity.
Qed.

Lemma timestep_reports (i n : Z) (s : State H) :
  failure_is_last (trace_of (timestep i n s)) = true
  /\ no_failure (trace_of (timestep i n s)) =
       negb (Function_Status_eqb (result_of (timestep i n s)) FAILURE).
Proof. unfold timestep, conflict_solving. run_prog; split; reflexivity. Qed.

Lemma timestep_balanced (i n : Z) (s : State H) :
  conflicts_balanced (trace_of (timestep i n s)).
Proof.
  unfold conflicts_balanced, timestep, conflict_solving.
  run_prog; split; reflexivity.
Qed.

End Timestep_Shows.

Section Run_Shows.
Context `{TA : Timestep_Api H} `{RA : Run_Api H}.

(** *** What a run prints *)

Lemma timestep_loop_shows (fuel : nat) (i n : Z) (s : State H) :
  let x := timestep_loop fuel i n s in
  let k := timesteps_applied (trace_of x) in
  (forall r m, result_of x = Finished (r, m) -> m = n + Z.of_nat k)
  /\ frames (trace_of x) =
       (if visualized (cli_args s)
        then map (pair i) (seqZ (n + 1) (Z.of_nat k)) else [])
  /\ sleeps (trace_of x) =
       (if visualized (cli_args s) && negb (write_to_file (cli_args s))
        then replicate k 1 else [])
  /\ timestep_counts (trace_of x) = [].
Proof.
  cbv zeta. revert n s. induction fuel as [|fuel IH]; intros n s;
    destruct (is_environment_empty (cli_args s) (world s)) eqn:E.
  1: rewrite timestep_loop_empty by assumption.
  2: rewrite timestep_loop_stop by assumption.
  3: rewrite timestep_loop_empty by assumption.
  1-3: unfold timesteps_applied, applied_worlds, frames, sleeps,
         timestep_counts; cbn;
    (split; [intros r m [= <- <-] || (intros r m; discriminate); lia|]);
    destruct (visualized _), (negb _); repeat split; reflexivity.
  rewrite timestep_loop_step by assumption. cbv zeta.
  destruct (timestep_shows i n s) as (Ha & Hf & Hs & Hc). cbv zeta in *.
  destruct (Function_Status_eqb (result_of (timestep i n s)) FAILURE) eqn:Ef;
    cbn [negb andb] in *; cbn [result_of state_of trace_of fst snd].
  - rewrite Ha, Hf, Hs, Hc. cbn.
    split; [intros r m [= <- <-]; lia|].
    destruct (visualized _), (negb _); repeat split; reflexivity.
  - destruct (IH (n + 1) (state_of (timestep i n s))) as (IHm & IHf & IHs & IHc).
    rewrite timestep_args in IHf, IHs.
    rewrite timesteps_applied_app, frames_app, sleeps_app, timestep_counts_app.
    rewrite Ha, Hf, Hs, Hc, IHf, IHs, IHc.
    set (k := timesteps_applied _) in *.
    split; [intros r m Hr; rewrite (IHm r m Hr); lia|].
    split; [|split; [|reflexivity]].
    + destruct (visualized _); [|reflexivity].
      rewrite (seqZ_cons (n + 1)) by lia. cbn [map app].
      do 3 f_equal; lia.
    + destruct (visualized _), (negb _); reflexivity.
Qed.

(** What the timestep loop inside a run shows, brought in when the loop is
    met. *)
Ltac meet_shows :=
  match goal with
  | |- context [timestep_loop ?f ?i ?n ?st] =>
      let HM := fresh "HM" in
      let HF := fresh "HF" in
      let HS := fresh "HS" in
      let HC := fresh "HC" in
      destruct (timestep_loop_shows f i n st) as (HM & HF & HS & HC);
      destruct (timestep_loop f i n st) as [[[[[] ?]|] ?] ?];
      cbn [result_of state_of trace_of fst snd cli_args] in HM, HF, HS, HC
  end.

Lemma simulation_run_count (fuel : nat) (i : Z) (s : State H) :
  result_of (simulation_run fuel i s) = Finished SUCCESS ->
  timestep_counts (trace_of (simulation_run fuel i s)) =
    if Output_Format_eqb (output_format (cli_args s)) OUTPUT_TIMESTEPS_COUNT
    then [Z.of_nat (timesteps_applied (trace_of (simulation_run fuel i s)))]
    else [].
Proof.
  unfold simulation_run. run_prog; try discriminate.
  all: meet_shows; run_prog; try discriminate.
  all: intros _; observe; rewrite ?HC; simpl; rewrite ?app_nil_r;
    try reflexivity.
  all: rewrite (HM _ _ eq_refl); f_equal; lia.
Qed.

Lemma simulation_runs_counts (fuel remaining : nat) (i : Z) (s : State H) :
  let t := trace_of (simulation_runs fuel remaining i s) in
  let counted :=
    Output_Format_eqb (output_format (cli_args s)) OUTPUT_TIMESTEPS_COUNT in
  result_of (simulation_runs fuel remaining i s) = Finished SUCCESS ->
  length (timestep_counts t) = (if counted then remaining else 0)%nat
  /\ sum_Z (timestep_counts t) =
       (if counted then Z.of_nat (timesteps_applied t) else 0).
Proof.
  cbv zeta. revert i s. induction remaining as [|remaining IH]; intros i s.
  - intros _. destruct (Output_Format_eqb _ _); split; reflexivity.
  - rewrite simulation_runs_step. cbv zeta.
    pose proof (simulation_run_count fuel i s) as Hc.
    destruct (simulation_run_seed fuel i s) as [_ Ha].
    destruct (result_of (simulation_run fuel i s)) as [[]|] eqn:Er;
      cbn [result_of state_of trace_of fst snd]; try discriminate.
    intros Hr. specialize (Hc eq_refl).
    destruct (IH (i + 1) (state_of (simulation_run fuel i s)) Hr) as [IHl IHs].
    rewrite Ha in IHl, IHs. cbn [set_seed output_format] in IHl, IHs.
    rewrite timestep_counts_app, timesteps_applied_app, length_app, sum_Z_app.
    rewrite IHl, IHs, Hc.
    destruct (Output_Format_eqb _ _); cbn [length sum_Z fold_right]; split; lia.
Qed.

(** X1: in the timesteps-count format a run that completes prints one
    number, the number of timesteps it went through; in the other formats it
    prints none. *)
Theorem run_prints_its_timesteps (fuel : nat) (i : Z) (s : State H) :
  result_of (simulation_run fuel i s) = Finished SUCCESS ->
  timestep_counts (trace_of (simulation_run fuel i s)) =
    if Output_Format_eqb (output_format (cli_args s)) OUTPUT_TIMESTEPS_COUNT
    then [Z.of_nat (timesteps_applied (trace_of (simulation_run fuel i s)))]
    else [].
Proof. apply simulation_run_count. Qed.

(** X2: a set that completes in the timesteps-count format prints one number
    per run asked for, and the numbers add up to the timesteps the set went
    through. *)
Theorem set_prints_one_count_per_run (fuel : nat) (s : State H) :
  result_of (run_simulations fuel s) = Finished SUCCESS ->
  output_format (cli_args s) = OUTPUT_TIMESTEPS_COUNT ->
  let t := trace_of (run_simulations fuel s) in
  length (timestep_counts t) = Z.to_nat (num_simulations (cli_args s))
  /\ sum_Z (timestep_counts t) = Z.of_nat (timesteps_applied t).
Proof.
  rewrite run_simulations_eq. cbv zeta. cbn [result_of trace_of fst snd].
  intros Hr Hf.
  destruct (simulation_runs_counts fuel _ 0 s Hr) as [Hl Hs].
  rewrite Hf in Hl, Hs. cbn [Output_Format_eqb] in Hl, Hs.
  rewrite timestep_counts_app, timesteps_applied_app.
  destruct (_ && _ && _); cbn [app]; split; assumption.
Qed.

(** X3: in the visualization format a run that completes prints the grid at
    its start and after every timestep, with the timesteps 0, 1, 2, ... in
    this order, and sleeps one second per timestep unless it writes to a
    file; in the other formats it prints no grid and never sleeps. *)
Theorem visualization_shows_every_timestep (fuel : nat) (i : Z) (s : State H) :
  result_of (simulation_run fuel i s) = Finished SUCCESS ->
  let t := trace_of (simulation_run fuel i s) in
  frames t =
    (if visualized (cli_args s)
     then map (pair i) (seqZ 0 (Z.of_nat (timesteps_applied t) + 1)) else [])
  /\ sleeps t =
       (if visualized (cli_args s) && negb (write_to_file (cli_args s))
        then replicate (timesteps_applied t) 1 else []).
Proof.
  unfold visualized, simulation_run. run_prog; try discriminate.
  all: meet_shows; run_prog; try discriminate.
  all: intros _; unfold visualized in *; observe; know;
    cbn [Output_Format_eqb andb negb] in *;
    rewrite ?HF, ?HS; know; simpl; rewrite ?app_nil_r, ?Nat.add_0_r.
  all: try (split; reflexivity).
  all: split; try reflexivity.
  all: rewrite (seqZ_cons 0) by lia; cbn [map]; do 3 f_equal; lia.
Qed.

(** *** The pedestrians of a run *)

Ltac meet_events :=
  match goal with
  | |- context [timestep_loop ?f ?i ?n ?st] =>
      let HI := fresh "HI" in
      let HD := fresh "HD" in
      let HR := fresh "HR" in
      destruct (timestep_events_pedestrians _ (timestep_loop_events f i n st))
        as (HI & HD & HR);
      destruct (timestep_loop f i n st) as [[[[[] ?]|] ?] ?];
      cbn [result_of state_of trace_of fst snd cli_args] in HI, HD, HR
  end.

(** X4: a run calls [insert_pedestrians_at_random] exactly when the origin
    has no pedestrians of its own; a run that completes releases the
    pedestrians once, by [deallocate_pedestrians] when it inserted them and
    by [reset_pedestrians_structures] when it did not; a run that fails or is
    cut releases nothing. *)
Theorem pedestrians_released_as_inserted (fuel : nat) (i : Z) (s : State H) :
  let x := simulation_run fuel i s in
  let static := origin_uses_static_pedestrians (cli_args s) in
  count pedestrians_inserted (trace_of x) = (if static then 0 else 1)%nat
  /\ match result_of x with
     | Finished SUCCESS =>
         count pedestrians_deallocated (trace_of x) =
           (if static then 0 else 1)%nat
         /\ count pedestrians_reset (trace_of x) =
              (if static then 1 else 0)%nat
     | _ =>
         count pedestrians_deallocated (trace_of x) = 0%nat
         /\ count pedestrians_reset (trace_of x) = 0%nat
     end.
Proof.
  cbv zeta. unfold simulation_run. run_prog; try (repeat split; reflexivity).
  all: meet_events; run_prog.
  all: tally; rewrite ?HI, ?HD, ?HR; repeat split; reflexivity.
Qed.

(** *** Where the timestep loop stops *)

(** X5: the timestep loop ends without failure only on an empty environment,
    and is cut only on one that is not empty. *)
Theorem loop_ends_on_empty_environment (fuel : nat) (i n : Z) (s : State H) :
  let x := timestep_loop fuel i n s in
  match result_of x with
  | Finished (FAILURE, _) => True
  | Finished _ =>
      is_environment_empty (cli_args (state_of x)) (world (state_of x)) = true
  | Out_of_fuel =>
      is_environment_empty (cli_args (state_of x)) (world (state_of x)) = false
  end.
Proof.
  cbv zeta. revert n s. induction fuel as [|fuel IH]; intros n s;
    destruct (is_environment_empty (cli_args s) (world s)) eqn:E.
  - rewrite timestep_loop_empty by assumption. exact E.
  - rewrite timestep_loop_stop by assumption. exact E.
  - rewrite timestep_loop_empty by assumption. exact E.
  - rewrite timestep_loop_step by assumption. cbv zeta.
    destruct (Function_Status_eqb (result_of (timestep i n s)) FAILURE);
      cbn [result_of state_of fst snd]; [exact I|].
    apply IH.
Qed.

(** *** Failures reported inside a set *)

Lemma timestep_loop_reports (fuel : nat) (i n : Z) (s : State H) :
  let x := timestep_loop fuel i n s in
  failure_is_last (trace_of x) = true
  /\ no_failure (trace_of x) =
       match result_of x with Finished (FAILURE, _) => false | _ => true end.
Proof.
  cbv zeta. revert n s. induction fuel as [|fuel IH]; intros n s;
    destruct (is_environment_empty (cli_args s) (world s)) eqn:E.
  - rewrite timestep_loop_empty by assumption. split; reflexivity.
  - rewrite timestep_loop_stop by assumption. split; reflexivity.
  - rewrite timestep_loop_empty by assumption. split; reflexivity.
  - rewrite timestep_loop_step by assumption. cbv zeta.
    destruct (timestep_reports i n s) as [Hl Hn].
    destruct (Function_Status_eqb (result_of (timestep i n s)) FAILURE) eqn:Ef;
      cbn [negb] in Hn; cbn [result_of state_of trace_of fst snd].
    + split; assumption.
    + destruct (IH (n + 1) (state_of (timestep i n s))) as [IHl IHn].
      rewrite failure_is_last_app, no_failure_app, Hn by assumption.
      split; assumption.
Qed.

Ltac meet_reports :=
  match goal with
  | |- context [timestep_loop ?f ?i ?n ?st] =>
      let HL := fresh "HL" in
      let HN := fresh "HN" in
      destruct (timestep_loop_reports f i n st) as [HL HN];
      destruct (timestep_loop f i n st) as [[[[[] ?]|] ?] ?];
      cbn [result_of state_of trace_of fst snd] in HL, HN
  end.

Lemma simulation_run_reports (fuel : nat) (i : Z) (s : State H) :
  let x := simulation_run fuel i s in
  failure_is_last (trace_of x) = true
  /\ no_failure (trace_of x) =
       match result_of x with Finished FAILURE => false | _ => true end.
Proof.
  cbv zeta. unfold simulation_run. run_prog; try (split; reflexivity).
  all: meet_reports; run_prog; close_report;
    split; first [assumption | reflexivity].
Qed.

Lemma simulation_runs_reports (fuel remaining : nat) (i : Z) (s : State H) :
  let x := simulation_runs fuel remaining i s in
  failure_is_last (trace_of x) = true
  /\ no_failure (trace_of x) =
       match result_of x with Finished FAILURE => false | _ => true end.
Proof.
  cbv zeta. revert i s. induction remaining as [|remaining IH]; intros i s.
  - split; reflexivity.
  - rewrite simulation_runs_step. cbv zeta.
    destruct (simulation_run_reports fuel i s) as [Hl Hn]. cbv zeta in *.
    destruct (result_of (simulation_run fuel i s)) as [[]|] eqn:Er;
      cbn [result_of state_of trace_of fst snd];
      try (split; assumption).
    destruct (IH (i + 1) (state_of (simulation_run fuel i s))) as [IHl IHn].
    rewrite failure_is_last_app, no_failure_app, Hn by assumption.
    split; assumption.
Qed.

Lemma run_simulations_reports (fuel : nat) (s : State H) :
  let x := run_simulations fuel s in
  failure_is_last (trace_of x) = true
  /\ no_failure (trace_of x) =
       match result_of x with Finished FAILURE => false | _ => true end.
Proof.
  cbv zeta. rewrite run_simulations_eq. cbv zeta.
  cbn [result_of state_of trace_of fst snd].
  destruct (simulation_runs_reports fuel
              (Z.to_nat (num_simulations (cli_args s))) 0 s) as [Hl Hn].
  destruct (_ && _ && _); cbn [app]; split; assumption.
Qed.

(** X6: [run_simulations] returns FAILURE exactly when
    [insert_pedestrians_at_random], [identify_pedestrian_conflicts] or
    [solve_pedestrian_conflicts] returned FAILURE, and that call is then the
    last it made; it never returns INACCESSIBLE_EXIT. *)
Theorem run_fails_with_its_collaborators (fuel : nat) (s : State H) :
  let x := run_simulations fuel s in
  failure_is_last (trace_of x) = true
  /\ no_failure (trace_of x) =
       match result_of x with Finished FAILURE => false | _ => true end
  /\ result_of x <> Finished INACCESSIBLE_EXIT.
Proof.
  cbv zeta. destruct (run_simulations_reports fuel s) as [Hl Hn].
  destruct (run_simulations_facts fuel s) as (_ & _ & Hr & _).
  repeat split; assumption.
Qed.

(** *** The conflict arrays *)

Lemma timestep_loop_balanced (fuel : nat) (i n : Z) (s : State H) :
  conflicts_balanced (trace_of (timestep_loop fuel i n s)).
Proof.
  revert n s. induction fuel as [|fuel IH]; intros n s;
    destruct (is_environment_empty (cli_args s) (world s)) eqn:E.
  - rewrite timestep_loop_empty by assumption. apply conflicts_balanced_nil.
  - rewrite timestep_loop_stop by assumption. apply conflicts_balanced_nil.
  - rewrite timestep_loop_empty by assumption. apply conflicts_balanced_nil.
  - rewrite timestep_loop_step by assumption. cbv zeta.
    pose proof (timestep_balanced i n s) as Hb.
    pose proof (timestep_quiet i n s) as Hq.
    destruct (Function_Status_eqb (result_of (timestep i n s)) FAILURE);
      cbn [trace_of snd]; [exact Hb|].
    apply conflicts_balanced_app; [exact Hb|exact Hq|apply IH].
Qed.

Ltac meet_balance :=
  match goal with
  | |- context [timestep_loop ?f ?i ?n ?st] =>
      let HB := fresh "HB" in
      pose proof (timestep_loop_balanced f i n st) as HB;
      destruct (timestep_loop f i n st) as [[[[[] ?]|] ?] ?];
      cbn [result_of state_of trace_of fst snd] in HB
  end.

Lemma simulation_run_balanced (fuel : nat) (i : Z) (s : State H) :
  conflicts_balanced (trace_of (simulation_run fuel i s)).
Proof.
  unfold simulation_run. run_prog; try settle_balance.
  all: meet_balance; run_prog; settle_balance.
Qed.

Lemma simulation_runs_balanced (fuel remaining : nat) (i : Z) (s : State H) :
  conflicts_balanced (trace_of (simulation_runs fuel remaining i s)).
Proof.
  revert i s. induction remaining as [|remaining IH]; intros i s.
  - apply conflicts_balanced_nil.
  - rewrite simulation_runs_step. cbv zeta.
    pose proof (simulation_run_balanced fuel i s) as Hb.
    destruct (simulation_run_failure fuel i s) as [_ Hq].
    destruct (result_of (simulation_run fuel i s)) as [[]|] eqn:Er;
      cbn [trace_of snd]; try exact Hb.
    apply conflicts_balanced_app; [exact Hb| |apply IH].
    destruct (quiet _); [reflexivity|]. specialize (Hq eq_refl). discriminate.
Qed.

(** X15: over a call of [run_simulations], [conflict_solving] has freed the
    conflicts of every timestep that went on to its apply phase, once each;
    the conflicts identified in a timestep whose conflict solving failed, the
    last one then, are not freed. *)
Theorem conflicts_freed_once_per_timestep (fuel : nat) (s : State H) :
  let t := trace_of (run_simulations fuel s) in
  count conflicts_freed t = timesteps_applied t
  /\ count conflicts_identified t =
       (timesteps_applied t + (if quiet t then 0 else 1))%nat.
Proof.
  cbv zeta. rewrite run_simulations_eq. cbv zeta. cbn [trace_of snd].
  pose proof (simulation_runs_balanced fuel
                (Z.to_nat (num_simulations (cli_args s))) 0 s) as Hb.
  destruct (_ && _ && _); cbn [app]; [|exact Hb].
  apply conflicts_balanced_outside; [reflexivity|exact Hb].
Qed.

End Run_Shows.

Section Set_Shows.
Context `{TA : Timestep_Api H} `{RA : Run_Api H} `{SA : Set_Api H}.

(** What [run_simulations] leaves to the loop of [main], brought in where a
    pass calls it. *)
Ltac meet_set :=
  match goal with
  | |- context [run_simulations ?f ?st] =>
      let HE := fresh "HE" in
      let HR := fresh "HR" in
      let HL := fresh "HL" in
      let HC := fresh "HC" in
      let HG := fresh "HG" in
      let HX := fresh "HX" in
      let HP := fresh "HP" in
      destruct (run_simulations_facts f st) as (_ & HE & HR & _);
      destruct (run_events_set_kinds _ HE) as (HL & HC & HG & HX & HP);
      destruct (run_simulations f st) as [[[[]|] ?] T];
      cbn [result_of state_of trace_of fst snd] in *;
      try congruence
  end.

Ltac meet_run_reports :=
  match goal with
  | |- context [run_simulations ?f ?st] =>
      let HL := fresh "HL" in
      let HN := fresh "HN" in
      destruct (run_simulations_reports f st) as [HL HN];
      destruct (run_simulations f st) as [[[[]|] ?] ?];
      cbn [result_of state_of trace_of fst snd] in HL, HN
  end.

(** *** Failures reported inside the loop *)

Lemma main_iteration_reports (fuel : nat) (q : Z) (l : Locals) (s : State H) :
  let x := main_iteration fuel q l s in
  failure_is_last (trace_of x) = true
  /\ no_failure (trace_of x) =
       match fst (result_of x) with Return_END_PROGRAM => false | _ => true end.
Proof.
  cbv zeta. unfold main_iteration, after_floor_field.
  run_prog; try (split; reflexivity).
  all: meet_run_reports; run_prog; close_report;
    split; first [assumption | reflexivity].
Qed.

Lemma main_loop_reports (sets fuel : nat) (q : Z) (l : Locals) (s : State H) :
  let x := main_loop sets fuel q l s in
  failure_is_last (trace_of x) = true
  /\ no_failure (trace_of x) =
       match result_of x with
       | Finished Returned_inside_loop => false
       | _ => true
       end.
Proof.
  cbv zeta. revert l s. induction sets as [|sets IH]; intros l s.
  - split; reflexivity.
  - rewrite main_loop_step. cbv zeta.
    destruct (main_iteration_reports fuel q l s) as [Hl Hn]. cbv zeta in *.
    destruct (fst (result_of (main_iteration fuel q l s)));
      cbn [result_of state_of trace_of fst snd];
      try (split; assumption).
    + destruct (IH (snd (result_of (main_iteration fuel q l s)))
                  (state_of (main_iteration fuel q l s))) as [IHl IHn].
      rewrite failure_is_last_app, no_failure_app, Hn by assumption.
      split; assumption.
    + rewrite failure_is_last_app, no_failure_app, Hn by assumption.
      split; reflexivity.
Qed.

(** X7: [main] returns from inside its loop exactly when a collaborator
    called in the loop reported FAILURE ([get_next_simulation_set],
    [calculate_final_floor_field], [insert_pedestrians_at_random],
    [identify_pedestrian_conflicts], [solve_pedestrian_conflicts]), and that
    call is the last call the process makes. *)
Theorem main_returns_on_reported_failure (sets fuel : nat) (q : Z) (s : State H) :
  let x := main sets fuel q s in
  failure_is_last (trace_of x) = true
  /\ (result_of x = Finished Returned_inside_loop
      <-> no_failure (trace_of x) = false).
Proof.
  cbv zeta. unfold main.
  destruct (main_loop_reports sets fuel q (mkLocals 0 0) s) as [Hl Hn].
  cbv zeta in *. split; [assumption|]. rewrite Hn.
  destruct (result_of _) as [[]|]; split; congruence.
Qed.

(** *** What is released when main ends *)




(** *** The progress reports *)




(** *** The exits of a set *)

Lemma main_iteration_exits (fuel : nat) (q : Z) (l : Locals) (s : State H) :
  let x := main_iteration fuel q l s in
  origin_uses_auxiliary_data (cli_args s) = true ->
  origin_uses_static_exits (cli_args s) = false ->
  match fst (result_of x) with
  | Next_iteration =>
      count fetched (trace_of x) = 1%nat
      /\ count exits_released (trace_of x) = 1%nat
  | Leave_loop =>
      count fetched (trace_of x) = 1%nat
      /\ count exits_released (trace_of x) = 0%nat
  | _ => True
  end.
Proof.
  cbv zeta. unfold main_iteration, after_floor_field.
  run_prog; try discriminate;
    try (intros _ _; first [exact I | split; reflexivity]).
  all: meet_set; run_prog; try discriminate.
  all: intros _ _; try exact I; tally; rewrite ?HG, ?HX; split; reflexivity.
Qed.

Lemma main_loop_exits (sets fuel : nat) (q : Z) (l : Locals) (s : State H) :
  let x := main_loop sets fuel q l s in
  (forall y, origin_uses_auxiliary_data (set_seed (cli_args s) y) = true) ->
  (forall y, origin_uses_static_exits (set_seed (cli_args s) y) = false) ->
  result_of x = Finished Returned_at_end ->
  count exits_released (trace_of x) = count fetched (trace_of x).
Proof.
  cbv zeta. revert l s. induction sets as [|sets IH]; intros l s Ha Hs.
  - discriminate.
  - rewrite main_loop_step. cbv zeta.
    pose proof (main_iteration_exits fuel q l s) as He. cbv zeta in He.
    rewrite <- (set_seed_seed (cli_args s)) in He at 1 2.
    specialize (He (Ha _) (Hs _)).
    destruct (main_iteration_seeds fuel q l s) as (k & _ & Hnext).
    cbv zeta in Hnext.
    destruct (fst (result_of (main_iteration fuel q l s)));
      cbn [result_of state_of trace_of fst snd]; try discriminate.
    + intros Hr. destruct He as [Hf Hx]. rewrite !count_app, Hf, Hx.
      rewrite (IH (snd (result_of (main_iteration fuel q l s)))
                 (state_of (main_iteration fuel q l s))); try assumption;
        [reflexivity| |]; rewrite (Hnext eq_refl); intros y;
        [apply Ha|apply Hs].
    + intros _. destruct He as [Hf Hx]. rewrite !count_app, Hf, Hx.
      reflexivity.
Qed.

(** X10: for an origin that reads its exits from the auxiliary file and has
    no static exits, whatever the seed, a [main] that leaves its loop has
    called [deallocate_exits] as often as [get_next_simulation_set]: once for
    every set fetched, and once at the end for the fetch that found no set
    left. *)
Theorem exits_released_as_fetched (sets fuel : nat) (q : Z) (s : State H) :
  (forall y, origin_uses_auxiliary_data (set_seed (cli_args s) y) = true) ->
  (forall y, origin_uses_static_exits (set_seed (cli_args s) y) = false) ->
  result_of (main sets fuel q s) = Finished Returned_at_end ->
  count exits_released (trace_of (main sets fuel q s)) =
    count fetched (trace_of (main sets fuel q s)).
Proof. apply main_loop_exits. Qed.

(** *** Exits that are not fetched and cannot be reached *)



End Set_Shows.
End Driver_Shows.

(** ** The initialisation *)

Ltac run_init :=
  unfold initialisation, init_bind, init_call, init_ret, init_emit, init_args;
  simpl; repeat (split_step; simpl).

Section Initialisation_Facts.
Context {H : Type} `{IA : Init_Api H}.

(** X12: the initialisation closes the auxiliary file exactly when
    [open_output_file] failed after [open_auxiliary_file] had opened it, and
    then as its last call before it returns; on its other early returns
    (environment, set quantity) it closes nothing. *)
Theorem auxiliary_file_closed_on_output_failure
    (argv : list String.string) (s : State H) :
  let x := initialisation argv s in
  existsb auxiliary_closed (snd x) =
    existsb output_failed (snd x) && existsb auxiliary_opened_by (snd x)
  /\ (existsb auxiliary_closed (snd x) = true ->
      last (snd x) = Some Fclose_auxiliary_file
      /\ fst (fst x) = Return_early).
Proof.
  cbv zeta. run_init; split;
    first [reflexivity | discriminate | intros _; split; reflexivity].
Qed.

(** X13: the initialisation reaches the loop exactly when none of its calls
    reported a failure; it has then printed the full command, and the set
    quantity is the one extracted from the auxiliary file when that file was
    opened, and 1 otherwise. *)
Theorem loop_entered_after_initialisation
    (argv : list String.string) (s : State H) :
  let x := initialisation argv s in
  match fst (fst x) with
  | Enter_loop auxiliary_file q =>
      no_init_failure (snd x) = true
      /\ In Print_full_command (snd x)
      /\ existsb auxiliary_opened_by (snd x) = auxiliary_file
      /\ q = quantity_left (snd x)
      /\ (if auxiliary_file
          then last (snd x) = Some (Extract_simulation_set_quantity q)
          else q = 1)
  | Return_early => no_init_failure (snd x) = false
  end.
Proof.
  cbv zeta. run_init.
  all: unfold no_init_failure, quantity_left; simpl; know;
    cbn [negb andb orb] in *; rewrite ?andb_false_r;
    try reflexivity; try discriminate.
  all: repeat split; auto 10.
Qed.


Context `{TA : Timestep_Api H} `{RA : Run_Api H} `{SA : Set_Api H}.


End Initialisation_Facts.

(** ** The scenarios of the hall, run again *)

Section Hall_Shows.
#[local] Existing Instance Hall.timestep_api.
#[local] Existing Instance Hall.run_api.
#[local] Existing Instance Hall.set_api.

(** A run of two pedestrians in the timesteps-count format. *)
Lemma run_prints_its_timesteps_witness :
  let s := two_sets OUTPUT_TIMESTEPS_COUNT in
  result_of (simulation_run 5 0 s) = Finished SUCCESS
  /\ timestep_counts (trace_of (simulation_run 5 0 s)) =
       (if Output_Format_eqb (output_format (cli_args s)) OUTPUT_TIMESTEPS_COUNT
        then [Z.of_nat (timesteps_applied (trace_of (simulation_run 5 0 s)))]
        else []).
Proof.
  split; [reflexivity|].
  apply (run_prints_its_timesteps 5 0 (two_sets OUTPUT_TIMESTEPS_COUNT)).
  reflexivity.
Defined.

(** A set of two such runs. *)
Lemma set_prints_one_count_per_run_witness :
  let s := two_sets OUTPUT_TIMESTEPS_COUNT in
  result_of (run_simulations 5 s) = Finished SUCCESS
  /\ output_format (cli_args s) = OUTPUT_TIMESTEPS_COUNT
  /\ length (timestep_counts (trace_of (run_simulations 5 s))) =
       Z.to_nat (num_simulations (cli_args s))
  /\ sum_Z (timestep_counts (trace_of (run_simulations 5 s))) =
       Z.of_nat (timesteps_applied (trace_of (run_simulations 5 s))).
Proof.
  split; [reflexivity|]. split; [reflexivity|].
  apply (set_prints_one_count_per_run 5 (two_sets OUTPUT_TIMESTEPS_COUNT));
    reflexivity.
Defined.

(** A run shown on the terminal. *)
Lemma visualization_shows_every_timestep_witness :
  result_of (simulation_run 5 0 watched_hall) = Finished SUCCESS
  /\ frames (trace_of (simulation_run 5 0 watched_hall)) =
       (if visualized (cli_args watched_hall)
        then map (pair 0)
               (seqZ 0 (Z.of_nat (timesteps_applied
                                    (trace_of (simulation_run 5 0 watched_hall))) + 1))
        else [])
  /\ sleeps (trace_of (simulation_run 5 0 watched_hall)) =
       (if visualized (cli_args watched_hall)
           && negb (write_to_file (cli_args watched_hall))
        then replicate (timesteps_applied
                          (trace_of (simulation_run 5 0 watched_hall))) 1
        else []).
Proof.
  split; [reflexivity|].
  apply (visualization_shows_every_timestep 5 0 watched_hall). reflexivity.
Defined.

(** Two sets read from the auxiliary file. *)
Lemma exits_released_as_fetched_witness :
  let s := two_sets OUTPUT_TIMESTEPS_COUNT in
  (forall y, origin_uses_auxiliary_data (set_seed (cli_args s) y) = true)
  /\ (forall y, origin_uses_static_exits (set_seed (cli_args s) y) = false)
  /\ result_of (main 5 5 2 s) = Finished Returned_at_end
  /\ count exits_released (trace_of (main 5 5 2 s)) =
       count fetched (trace_of (main 5 5 2 s)).
Proof.
  split; [intros y; reflexivity|]. split; [intros y; reflexivity|].
  split; [reflexivity|].
  apply (exits_released_as_fetched 5 5 2 (two_sets OUTPUT_TIMESTEPS_COUNT));
    [intros y; reflexivity | intros y; reflexivity | reflexivity].
Defined.


(** Two sets in the timesteps-count format: two numbers per set, one report
    per set. *)
Lemma hall_two_sets_shown :
  let x := main 5 5 2 (two_sets OUTPUT_TIMESTEPS_COUNT) in
  timestep_counts (trace_of x) = [2; 2; 2; 2]
  /\ status_lines (trace_of x) = [(0, 2); (1, 2)]
  /\ count fetched (trace_of x) = 3%nat
  /\ count exits_released (trace_of x) = 3%nat.
Proof. repeat split; reflexivity. Qed.

(** The desk hands the quantity of the auxiliary file to the loop. *)
Lemma desk_opens_the_hall :
  let x := @program _ (Desk.init_api open_desk) _ _ _ [] 5 5
             (two_sets OUTPUT_TIMESTEPS_COUNT) in
  fst (fst x) = Finished (Returned_from_loop Returned_at_end)
  /\ quantity_left (fst (snd x)) = 2
  /\ status_lines (snd (snd x)) = [(0, 2); (1, 2)].
Proof. repeat split; reflexivity. Qed.

(** With no output file the auxiliary file is closed and nothing is run. *)
Lemma desk_without_output :
  let x := @program _ (Desk.init_api no_output_desk) _ _ _ [] 5 5
             (two_sets OUTPUT_TIMESTEPS_COUNT) in
  fst (fst x) = Finished Returned_in_initialisation
  /\ last (fst (snd x)) = Some Fclose_auxiliary_file
  /\ snd (snd x) = [].
Proof. repeat split; reflexivity. Qed.

End Hall_Shows.
